(** * CircuitBreaker: a shallow embedding of the PreKey circuit breaker

    The TypeScript class [CircuitBreaker] is a timed three-state machine with a
    sliding window of failure records.  Its methods mutate the fields of
    [this], read the wall clock through [Date.now()] and talk to an optional
    logger.  Here the fields are a record, the methods are computations in a
    small state monad that threads the object, the number of clock reads made
    so far and the logger calls, and the clock is an oracle: the k-th
    [Date.now()] of a method call returns [clk k].

    Numbers.  [Date.now()], [failures.length] and [successes] are integers;
    the configured thresholds and durations are taken to be integers too
    (counts and milliseconds), and JavaScript's number arithmetic on them is
    written on [Z].  That arithmetic is on doubles, exact on safe integers
    only; the statements about [getStats()], whose result depends on it,
    assume as much ([exactRemaining]).

    The error filter [shouldCountError] is taken to be a pure, total
    predicate; the logger never feeds back into the breaker. *)

From Stdlib Require Import ZArith List String Ascii Bool Lia.
From Stdlib Require Import DecimalString.
Import ListNotations.
Local Open Scope Z_scope.
Local Open Scope string_scope.
Local Open Scope list_scope.

(** ** Data model *)

Inductive CircuitBreakerState : Type := CLOSED | OPEN | HALF_OPEN.

(** The only part of a JavaScript [Error] the breaker looks at. *)
Record Error : Type := mkError { message : string }.

(** The configuration as the caller supplies it: the filter is optional,
    [None] standing for an object literal without the key (so is the logger,
    which is modelled by the trace of [Heap] below). *)
Module CircuitBreakerConfig.
Record t : Type := make {
  failureThreshold : Z;
  failureWindow : Z;
  openTimeout : Z;
  successThreshold : Z;
  shouldCountError : option (Error -> bool)
}.
End CircuitBreakerConfig.

(** [Required<CircuitBreakerConfig>]: what the object stores. *)
Record RequiredConfig : Type := mkConfig {
  failureThreshold : Z;
  failureWindow : Z;
  openTimeout : Z;
  successThreshold : Z;
  shouldCountError : Error -> bool
}.

Record FailureRecord : Type := mkFailure {
  timestamp : Z;
  error : string
}.

Record CircuitBreaker : Type := mkCircuitBreaker {
  state : CircuitBreakerState;
  failures : list FailureRecord;
  successes : Z;
  openedAt : Z;
  config : RequiredConfig
}.

(** The object [getStats()] returns. *)
Module Stats.
Record t : Type := make {
  state : CircuitBreakerState;
  failures : Z;
  successes : Z;
  openedAt : Z;
  timeUntilHalfOpen : Z
}.
End Stats.

(** ** The logger side channel *)

Inductive LogLevel : Type := debug | info | warn.

Inductive LogValue : Type :=
| VNum (n : Z)
| VStr (s : string)
| VState (s : CircuitBreakerState).

Record LogCall : Type := mkLog {
  level : LogLevel;
  obj : list (string * LogValue);
  msg : string
}.

(** ** The method monad *)

(** [clk k] is what the k-th [Date.now()] of the running call returns. *)
Definition Clock : Type := nat -> Z.

Record Heap : Type := mkHeap {
  this : CircuitBreaker;
  reads : nat;
  logged : list LogCall
}.

Definition M (A : Type) : Type := Clock -> Heap -> A * Heap.

Definition ret {A : Type} (a : A) : M A := fun _ h => (a, h).

Definition bind {A B : Type} (m : M A) (k : A -> M B) : M B :=
  fun clk h => let (a, h') := m clk h in k a clk h'.

Notation "x <- m ;; k" := (bind m (fun x => k))
  (at level 61, m at next level, right associativity).
Notation "m ;; k" := (bind m (fun _ => k))
  (at level 61, right associativity).

Definition Date_now : M Z :=
  fun clk h => (clk (reads h), mkHeap (this h) (S (reads h)) (logged h)).

Definition get {A : Type} (field : CircuitBreaker -> A) : M A :=
  fun _ h => (field (this h), h).

Definition modify (f : CircuitBreaker -> CircuitBreaker) : M unit :=
  fun _ h => (tt, mkHeap (f (this h)) (reads h) (logged h)).

Definition set_state (s : CircuitBreakerState) : M unit :=
  modify (fun b => mkCircuitBreaker s (failures b) (successes b) (openedAt b) (config b)).

Definition set_failures (fs : list FailureRecord) : M unit :=
  modify (fun b => mkCircuitBreaker (state b) fs (successes b) (openedAt b) (config b)).

Definition set_successes (n : Z) : M unit :=
  modify (fun b => mkCircuitBreaker (state b) (failures b) n (openedAt b) (config b)).

Definition set_openedAt (t : Z) : M unit :=
  modify (fun b => mkCircuitBreaker (state b) (failures b) (successes b) t (config b)).

(** [this.config.logger?.level(obj, msg)]: the call is appended to the trace
    (with no logger configured it would not be made at all; either way it
    does not touch the breaker). *)
Definition logger (l : LogLevel) (o : list (string * LogValue)) (m : string) : M unit :=
  fun _ h => (tt, mkHeap (this h) (reads h) (logged h ++ [mkLog l o m])).

Definition length_ (fs : list FailureRecord) : Z := Z.of_nat (List.length fs).

(** ** The class *)

Definition constructor (c : CircuitBreakerConfig.t) : CircuitBreaker :=
  mkCircuitBreaker CLOSED [] 0 0
    (mkConfig
       (CircuitBreakerConfig.failureThreshold c)
       (CircuitBreakerConfig.failureWindow c)
       (CircuitBreakerConfig.openTimeout c)
       (CircuitBreakerConfig.successThreshold c)
       (match CircuitBreakerConfig.shouldCountError c with
        | Some p => p
        | None => fun _ => true
        end)).

(** Remove failures outside the time window. *)
Definition cleanOldFailures : M unit :=
  now <- Date_now ;;
  cfg <- get config ;;
  let cutoff := now - failureWindow cfg in
  fs <- get failures ;;
  set_failures (filter (fun f => timestamp f >? cutoff) fs).

(** Transition to a new state. *)
Definition transitionTo (newState : CircuitBreakerState) : M unit :=
  oldState <- get state ;;
  set_state newState ;;
  match newState with
  | OPEN =>
      now <- Date_now ;;
      set_openedAt now ;;
      set_successes 0 ;;
      fs <- get failures ;;
      cfg <- get config ;;
      logger warn
        [("oldState", VState oldState);
         ("failures", VNum (length_ fs));
         ("openTimeout", VNum (openTimeout cfg))]
        "Circuit breaker opened - blocking requests"
  | HALF_OPEN =>
      set_successes 0 ;;
      logger info [("oldState", VState oldState)]
        "Circuit breaker half-open - testing recovery"
  | CLOSED =>
      set_failures [] ;;
      set_successes 0 ;;
      set_openedAt 0 ;;
      logger info [("oldState", VState oldState)]
        "Circuit breaker closed - normal operation resumed"
  end.

(** Check if circuit breaker allows execution. *)
Definition canExecute : M bool :=
  cleanOldFailures ;;
  s <- get state ;;
  match s with
  | CLOSED => ret true
  | OPEN =>
      now <- Date_now ;;
      opened <- get openedAt ;;
      cfg <- get config ;;
      if now - opened >=? openTimeout cfg
      then transitionTo HALF_OPEN ;; ret true
      else ret false
  | HALF_OPEN => ret true
  end.

(** Record successful execution. *)
Definition recordSuccess : M unit :=
  s <- get state ;;
  match s with
  | HALF_OPEN =>
      n <- get successes ;;
      set_successes (n + 1) ;;
      n' <- get successes ;;
      cfg <- get config ;;
      logger debug
        [("successes", VNum n'); ("threshold", VNum (successThreshold cfg))]
        "Circuit breaker success recorded" ;;
      if n' >=? successThreshold cfg
      then transitionTo CLOSED
      else ret tt
  | CLOSED => cleanOldFailures
  | OPEN => ret tt
  end.

(** Record failed execution. *)
Definition recordFailure (e : Error) : M unit :=
  cfg <- get config ;;
  if negb (shouldCountError cfg e)
  then
    logger debug [("error", VStr (message e))]
      "Circuit breaker ignoring error (filtered out)"
  else
    now <- Date_now ;;
    fs <- get failures ;;
    set_failures (fs ++ [mkFailure now (message e)]) ;;
    fs' <- get failures ;;
    logger debug
      [("failureCount", VNum (length_ fs')); ("error", VStr (message e))]
      "Circuit breaker failure recorded" ;;
    s <- get state ;;
    match s with
    | HALF_OPEN => transitionTo OPEN
    | CLOSED =>
        cleanOldFailures ;;
        pruned <- get failures ;;
        if length_ pruned >=? failureThreshold cfg
        then transitionTo OPEN
        else ret tt
    | OPEN => ret tt
    end.

(** Get current circuit breaker state. *)
Definition getState : M CircuitBreakerState := get state.

(** Get statistics about circuit breaker. *)
Definition getStats : M Stats.t :=
  s <- get state ;;
  fs <- get failures ;;
  n <- get successes ;;
  opened <- get openedAt ;;
  remaining <-
    match s with
    | OPEN =>
        cfg <- get config ;;
        now <- Date_now ;;
        ret (Z.max 0 (openTimeout cfg - (now - opened)))
    | _ => ret 0
    end ;;
  ret (Stats.make s (length_ fs) n opened remaining).

(** Manually reset circuit breaker to CLOSED state. *)
Definition reset : M unit := transitionTo CLOSED.

(** ** The factory *)

(** [String.prototype.toLowerCase] and [String.prototype.includes], on
    ASCII text. *)
Definition lower (c : ascii) : ascii :=
  let n := nat_of_ascii c in
  if (andb (Nat.leb 65 n) (Nat.leb n 90)) then ascii_of_nat (n + 32) else c.

Fixpoint toLowerCase (s : string) : string :=
  match s with
  | EmptyString => EmptyString
  | String c s' => String (lower c) (toLowerCase s')
  end.

Fixpoint includes (s sub : string) : bool :=
  prefix sub s ||
  match s with
  | EmptyString => false
  | String _ s' => includes s' sub
  end.

(** Create a PreKey-specific circuit breaker with sensible defaults. *)
Definition preKeyConfig : CircuitBreakerConfig.t :=
  CircuitBreakerConfig.make
    5            (* 5 failures *)
    (60 * 1000)  (* within 60 seconds *)
    (30 * 1000)  (* wait 30 seconds before retry *)
    2            (* need 2 successes to close *)
    (Some (fun e =>
       (* Only count PreKey-related errors *)
       let msg := toLowerCase (message e) in
       includes msg "prekey" ||
       includes msg "pre-key" ||
       includes msg "key used already" ||
       includes msg "never filled" ||
       includes msg "session" ||
       includes msg "decrypt")).

Definition createPreKeyCircuitBreaker : CircuitBreaker := constructor preKeyConfig.

(** ** Calling a method *)

(** One method call on the object [b], under the clock [clk]: the returned
    value and the object afterwards. *)
Definition call {A : Type} (m : M A) (clk : Clock) (b : CircuitBreaker)
  : A * CircuitBreaker :=
  let (a, h) := m clk (mkHeap b 0 []) in (a, this h).

Definition result {A : Type} (m : M A) (clk : Clock) (b : CircuitBreaker) : A :=
  fst (call m clk b).

Definition after {A : Type} (m : M A) (clk : Clock) (b : CircuitBreaker)
  : CircuitBreaker :=
  snd (call m clk b).

(** A clock that stands still during the call. *)
Definition at_ (t : Z) : Clock := fun _ => t.

(** The public methods, and the objects a caller can bring about. *)
Inductive Method : Type :=
| CanExecute
| RecordSuccess
| RecordFailure (e : Error)
| GetState
| GetStats
| Reset.

Definition invoke (m : Method) (clk : Clock) (b : CircuitBreaker) : CircuitBreaker :=
  match m with
  | CanExecute => after canExecute clk b
  | RecordSuccess => after recordSuccess clk b
  | RecordFailure e => after (recordFailure e) clk b
  | GetState => after getState clk b
  | GetStats => after getStats clk b
  | Reset => after reset clk b
  end.

Inductive reachable (c : CircuitBreakerConfig.t) : CircuitBreaker -> Prop :=
| reach_new : reachable c (constructor c)
| reach_invoke (m : Method) (clk : Clock) (b : CircuitBreaker) :
    reachable c b -> reachable c (invoke m clk b).

(** A run of qualifying or filtered failures, each under its own clock. *)
Fixpoint recordFailures (calls : list (Clock * Error)) (b : CircuitBreaker)
  : CircuitBreaker :=
  match calls with
  | [] => b
  | (clk, e) :: rest => recordFailures rest (after (recordFailure e) clk b)
  end.

(** The failure sequence after a pruning pass that read the clock at [now]. *)
Definition pruned (now : Z) (b : CircuitBreaker) : list FailureRecord :=
  filter (fun f => timestamp f >? now - failureWindow (config b)) (failures b).

(** The object with its failure sequence replaced, the object just after
    entering OPEN at [now], and the object just after entering CLOSED. *)
Definition with_failures (fs : list FailureRecord) (b : CircuitBreaker) : CircuitBreaker :=
  mkCircuitBreaker (state b) fs (successes b) (openedAt b) (config b).

Definition opened (now : Z) (b : CircuitBreaker) : CircuitBreaker :=
  mkCircuitBreaker OPEN (failures b) 0 now (config b).

Definition closed (b : CircuitBreaker) : CircuitBreaker :=
  mkCircuitBreaker CLOSED [] 0 0 (config b).

(** A run of arbitrary method calls. *)
Fixpoint invokes (ms : list (Method * Clock)) (b : CircuitBreaker) : CircuitBreaker :=
  match ms with
  | [] => b
  | (m, clk) :: rest => invokes rest (invoke m clk b)
  end.

(** The state is OPEN before, between and after the calls of [ms]. *)
Fixpoint staysOpen (ms : list (Method * Clock)) (b : CircuitBreaker) : Prop :=
  state b = OPEN /\
  match ms with
  | [] => True
  | (m, clk) :: rest => staysOpen rest (invoke m clk b)
  end.

(** The state is CLOSED before, between and after the failures of [calls]. *)
Fixpoint closedThroughout (calls : list (Clock * Error)) (b : CircuitBreaker) : Prop :=
  state b = CLOSED /\
  match calls with
  | [] => True
  | (clk, e) :: rest => closedThroughout rest (after (recordFailure e) clk b)
  end.

(** [timeUntilHalfOpen] as [getStats()] reports it under the clock [clk]. *)
Definition timeUntilHalfOpen (clk : Clock) (b : CircuitBreaker) : Z :=
  Stats.timeUntilHalfOpen (result getStats clk b).

(** Some objects of the PreKey breaker: after five PreKey failures at
    time [t] (OPEN); with t = 1000, after the open timeout has then been
    observed at t = 31000 (HALF_OPEN), and after one successful probe. *)
Definition tripped_at (t : Z) : CircuitBreaker :=
  recordFailures (repeat (at_ t, mkError "Invalid PreKey ID") 5)
    createPreKeyCircuitBreaker.

Definition tripped : CircuitBreaker := tripped_at 1000.

Definition probing : CircuitBreaker := after canExecute (at_ 31000) tripped.

Definition probed_once : CircuitBreaker := after recordSuccess (at_ 31005) probing.

(** ** Exact number arithmetic

    JavaScript numbers are IEEE doubles.  Every integer of magnitude up to
    [Number.MAX_SAFE_INTEGER] is a double, and a subtraction whose two
    operands and whose result are such integers is carried out exactly; only
    then does the subtraction on [Z] give what the code computes.
    [exactRemaining now b] says so for the two subtractions of
    [openTimeout - (now - openedAt)] in [getStats()]. *)
Definition MAX_SAFE_INTEGER : Z := 2 ^ 53 - 1.

Definition isSafeInteger (n : Z) : Prop :=
  - MAX_SAFE_INTEGER <= n <= MAX_SAFE_INTEGER.

Definition exactRemaining (now : Z) (b : CircuitBreaker) : Prop :=
  isSafeInteger (openTimeout (config b)) /\
  isSafeInteger now /\
  isSafeInteger (openedAt b) /\
  isSafeInteger (now - openedAt b) /\
  isSafeInteger (openTimeout (config b) - (now - openedAt b)).

(** ** Configurations and messages the model covers

    [omitsFilter c]: the object literal handed to the constructor has no
    [shouldCountError] key, so the spread keeps the default.  (A literal that
    carries the key with the value [undefined] is not a value of
    [CircuitBreakerConfig.t]: there the spread overwrites the default and
    [recordFailure] throws.)

    [isASCII s]: every character of [s] is below 128; on such text
    [toLowerCase] and [includes] above are what JavaScript computes. *)
Definition omitsFilter (c : CircuitBreakerConfig.t) : Prop :=
  CircuitBreakerConfig.shouldCountError c = None.

Fixpoint isASCII (s : string) : bool :=
  match s with
  | EmptyString => true
  | String c s' => Nat.ltb (nat_of_ascii c) 128 && isASCII s'
  end.

(** ** Runs of successes, and what a call sends to the logger *)

Fixpoint recordSuccesses (clks : list Clock) (b : CircuitBreaker) : CircuitBreaker :=
  match clks with
  | [] => b
  | clk :: rest => recordSuccesses rest (after recordSuccess clk b)
  end.




(** The substrings the PreKey filter looks for. *)
Definition preKeyKeywords : list string :=
  ["prekey"; "pre-key"; "key used already"; "never filled"; "session"; "decrypt"].

(** * The Baileys logger utility

    Functions that print to the console when the environment variable
    [BAILEYS_LOG] is the string [true].  [process.env] is a lookup from names
    to optional strings; a function returns the [console.log] calls it makes,
    each with its text and the optional second argument.  [any] is the type of
    that argument, [number] the type of the counts, and [showNumber] how a
    template literal renders one. *)

Module BaileysLogger.
Section Logger.
Context {any number : Type} (showNumber : number -> string).
Local Open Scope string_scope.

Definition Env : Type := string -> option string.

Record ConsoleCall : Type := mkCall {
  text : string;
  data : option any
}.

Inductive ConnectionEvent : Type := connecting | open | close.
Inductive AuthEvent : Type := success | saved | cleared.
Inductive MessageEvent : Type := sent | received | decrypt_failed.
Inductive PreKeyEvent : Type := uploaded | low | refreshed.

Record MessageDetails : Type := mkDetails {
  messageId : option string;
  from : option string;
  to : option string;
  retryCount : option number;
  maxRetries : option number
}.

(** How a template literal renders an optional string or number. *)
Definition showString (s : option string) : string :=
  match s with
  | Some v => v
  | None => "undefined"
  end.

Definition showCount (n : option number) : string :=
  match n with
  | Some v => showNumber v
  | None => "undefined"
  end.

(** [sessionName ? ` [${sessionName}]` : ''] *)
Definition sessionTag (sessionName : option string) : string :=
  match sessionName with
  | None => ""
  | Some EmptyString => ""
  | Some s => " [" ++ s ++ "]"
  end.

(** Check if Baileys logging is enabled. *)
Definition isBaileysLogEnabled (env : Env) : bool :=
  match env "BAILEYS_LOG" with
  | Some v => String.eqb v "true"
  | None => false
  end.

(** Log message if BAILEYS_LOG is enabled. *)
Definition baileysLog (env : Env) (message : string) (d : option any)
  : list ConsoleCall :=
  if isBaileysLogEnabled env
  then match d with
       | Some v => [mkCall ("[BAILEYS] " ++ message) (Some v)]
       | None => [mkCall ("[BAILEYS] " ++ message) None]
       end
  else [].

(** Log connection event. *)
Definition logConnection (env : Env) (event : ConnectionEvent)
  (sessionName : option string) : list ConsoleCall :=
  if negb (isBaileysLogEnabled env) then [] else
  let session := sessionTag sessionName in
  match event with
  | connecting =>
      [mkCall ("[BAILEYS]" ++ session ++ " 🔌 Connecting to WhatsApp...") None]
  | open =>
      [mkCall ("[BAILEYS]" ++ session ++ " ✅ Connected to WhatsApp successfully") None]
  | close =>
      [mkCall ("[BAILEYS]" ++ session ++ " 🔴 Disconnected from WhatsApp") None]
  end.

(** Log disconnection with reason. *)
Definition logDisconnect (env : Env) (reason : string) (sessionName : option string)
  : list ConsoleCall :=
  if negb (isBaileysLogEnabled env) then [] else
  let session := sessionTag sessionName in
  [mkCall ("[BAILEYS]" ++ session ++ " 🔴 Disconnected - Reason: " ++ reason) None].

(** Log QR code generation. *)
Definition logQRGenerated (env : Env) (sessionName : option string)
  : list ConsoleCall :=
  if negb (isBaileysLogEnabled env) then [] else
  let session := sessionTag sessionName in
  [mkCall ("[BAILEYS]" ++ session ++ " 📱 QR Code generated for pairing") None].

(** Log authentication events. *)
Definition logAuth (env : Env) (event : AuthEvent) (sessionName : option string)
  : list ConsoleCall :=
  if negb (isBaileysLogEnabled env) then [] else
  let session := sessionTag sessionName in
  match event with
  | success => [mkCall ("[BAILEYS]" ++ session ++ " ✅ Authentication successful") None]
  | saved => [mkCall ("[BAILEYS]" ++ session ++ " 🔑 Credentials saved") None]
  | cleared => [mkCall ("[BAILEYS]" ++ session ++ " ⚠️  Auth state cleared") None]
  end.

(** Log message events. *)
Definition logMessage (env : Env) (event : MessageEvent) (details : MessageDetails)
  : list ConsoleCall :=
  if negb (isBaileysLogEnabled env) then [] else
  match event with
  | sent =>
      [mkCall ("[BAILEYS] 📤 Message sent: " ++ showString (messageId details)
               ++ " → " ++ showString (to details)) None]
  | received =>
      [mkCall ("[BAILEYS] 📥 Message received from " ++ showString (from details)) None]
  | decrypt_failed =>
      [mkCall ("[BAILEYS] ⚠️  Message decrypt failed - Retry "
               ++ showCount (retryCount details) ++ "/"
               ++ showCount (maxRetries details)) None]
  end.

(** Log PreKey events. *)
Definition logPreKeys (env : Env) (event : PreKeyEvent) (count : option number)
  : list ConsoleCall :=
  if negb (isBaileysLogEnabled env) then [] else
  match event with
  | uploaded =>
      [mkCall ("[BAILEYS] 🔐 PreKeys uploaded: " ++ showCount count ++ " keys") None]
  | low =>
      [mkCall ("[BAILEYS] ⚠️  PreKey count low: " ++ showCount count
               ++ " (uploading more...)") None]
  | refreshed => [mkCall "[BAILEYS] 🔄 PreKeys refreshed" None]
  end.

(** Log session establishment; [forced] defaults to false. *)
Definition logSession (env : Env) (contact : string) (forced : option bool)
  : list ConsoleCall :=
  let forced := match forced with Some v => v | None => false end in
  if negb (isBaileysLogEnabled env) then [] else
  let forceStr := if forced then " (forced)" else "" in
  [mkCall ("[BAILEYS] 🤝 Session established with " ++ contact ++ forceStr) None].

(** Log error events; the error is an [Error] or a plain string. *)
Definition logError (env : Env) (context : string) (err : Error + string)
  : list ConsoleCall :=
  if negb (isBaileysLogEnabled env) then [] else
  let errorMsg := match err with inr s => s | inl e => message e end in
  [mkCall ("[BAILEYS] ❌ Error in " ++ context ++ ": " ++ errorMsg) None].

(** Log general info. *)
Definition logInfo (env : Env) (message : string) (d : option any)
  : list ConsoleCall :=
  if negb (isBaileysLogEnabled env) then [] else
  match d with
  | Some v => [mkCall ("[BAILEYS] ℹ️  " ++ message) (Some v)]
  | None => [mkCall ("[BAILEYS] ℹ️  " ++ message) None]
  end.

(** A call of any of the logging functions, and what it prints. *)
Inductive LogRequest : Type :=
| BaileysLog (message : string) (d : option any)
| LogConnection (event : ConnectionEvent) (sessionName : option string)
| LogDisconnect (reason : string) (sessionName : option string)
| LogQRGenerated (sessionName : option string)
| LogAuth (event : AuthEvent) (sessionName : option string)
| LogMessage (event : MessageEvent) (details : MessageDetails)
| LogPreKeys (event : PreKeyEvent) (count : option number)
| LogSession (contact : string) (forced : option bool)
| LogError (context : string) (err : Error + string)
| LogInfo (message : string) (d : option any).

Definition console (env : Env) (r : LogRequest) : list ConsoleCall :=
  match r with
  | BaileysLog m d => baileysLog env m d
  | LogConnection ev s => logConnection env ev s
  | LogDisconnect reason s => logDisconnect env reason s
  | LogQRGenerated s => logQRGenerated env s
  | LogAuth ev s => logAuth env ev s
  | LogMessage ev details => logMessage env ev details
  | LogPreKeys ev n => logPreKeys env ev n
  | LogSession c f => logSession env c f
  | LogError c e => logError env c e
  | LogInfo m d => logInfo env m d
  end.

(** The second argument the caller handed over, if the function takes one. *)
Definition givenData (r : LogRequest) : option any :=
  match r with
  | BaileysLog _ d | LogInfo _ d => d
  | _ => None
  end.

End Logger.
End BaileysLogger.

(** An environment with [BAILEYS_LOG] set to [v] and nothing else, and the
    decimal rendering of an integer count. *)
Definition envWith (v : string) : BaileysLogger.Env :=
  fun name => if String.eqb name "BAILEYS_LOG" then Some v else None.

Definition showZ (n : Z) : string := NilZero.string_of_int (Z.to_int n).

(** * What each method does to the object *)

(** The methods are straight-line code over four fields, so every call can
    be run symbolically; the equations below are the result, one per method,
    and the properties later on are read off them. *)

Ltac run_method :=
  unfold call, after, result, canExecute, recordSuccess, recordFailure, getState,
    getStats, reset, transitionTo, cleanOldFailures, pruned,
    set_state, set_failures, set_successes, set_openedAt, modify, logger,
    Date_now, get, bind, ret;
  cbn [this reads logged fst snd state failures successes openedAt config].

Example prekey_counts :
  shouldCountError (config createPreKeyCircuitBreaker) (mkError "No PreKey found") = true.
Proof. reflexivity. Qed.

Example other_filtered :
  shouldCountError (config createPreKeyCircuitBreaker) (mkError "timeout") = false.
Proof. reflexivity. Qed.

Example tripped_is_open :
  state tripped = OPEN /\ openedAt tripped = 1000 /\ length_ (failures tripped) = 5.
Proof. repeat split. Qed.

Example probing_is_half_open :
  state probing = HALF_OPEN /\ successes probing = 0 /\ openedAt probing = 1000.
Proof. repeat split. Qed.

Lemma with_failures_same b : with_failures (failures b) b = b.
Proof. now destruct b. Qed.

Lemma call_cleanOldFailures clk b :
  call cleanOldFailures clk b = (tt, with_failures (pruned (clk 0%nat) b) b).
Proof. reflexivity. Qed.

Lemma call_transitionTo clk s b :
  call (transitionTo s) clk b =
  (tt, match s with
       | OPEN => opened (clk 0%nat) b
       | HALF_OPEN => mkCircuitBreaker HALF_OPEN (failures b) 0 (openedAt b) (config b)
       | CLOSED => closed b
       end).
Proof. now destruct s. Qed.

Lemma call_canExecute clk b :
  call canExecute clk b =
  match state b with
  | OPEN =>
      if clk 1%nat - openedAt b >=? openTimeout (config b)
      then (true, mkCircuitBreaker HALF_OPEN (pruned (clk 0%nat) b) 0 (openedAt b) (config b))
      else (false, with_failures (pruned (clk 0%nat) b) b)
  | _ => (true, with_failures (pruned (clk 0%nat) b) b)
  end.
Proof.
  destruct b as [s fs n t cfg]; destruct s; run_method; try reflexivity.
  now destruct (clk 1%nat - t >=? openTimeout cfg).
Qed.

Lemma call_recordSuccess clk b :
  call recordSuccess clk b =
  (tt, match state b with
       | HALF_OPEN =>
           if successes b + 1 >=? successThreshold (config b)
           then closed b
           else mkCircuitBreaker HALF_OPEN (failures b) (successes b + 1)
                  (openedAt b) (config b)
       | CLOSED => with_failures (pruned (clk 0%nat) b) b
       | OPEN => b
       end).
Proof.
  destruct b as [s fs n t cfg]; destruct s; run_method; try reflexivity.
  now destruct (n + 1 >=? successThreshold cfg).
Qed.

Lemma call_recordFailure clk e b :
  call (recordFailure e) clk b =
  (tt, if shouldCountError (config b) e
       then
         let b1 := with_failures (failures b ++ [mkFailure (clk 0%nat) (message e)]) b in
         match state b with
         | HALF_OPEN => opened (clk 1%nat) b1
         | CLOSED =>
             let b2 := with_failures (pruned (clk 1%nat) b1) b1 in
             if length_ (failures b2) >=? failureThreshold (config b)
             then opened (clk 2%nat) b2
             else b2
         | OPEN => b1
         end
       else b).
Proof.
  destruct b as [s fs n t cfg]; run_method.
  destruct (shouldCountError cfg e); cbn [negb]; [|reflexivity].
  destruct s; cbn; try reflexivity.
  now destruct (length_ _ >=? failureThreshold cfg).
Qed.

Lemma call_reset clk b : call reset clk b = (tt, closed b).
Proof. reflexivity. Qed.

Lemma call_getState clk b : call getState clk b = (state b, b).
Proof. reflexivity. Qed.

Lemma call_getStats clk b :
  call getStats clk b =
  (Stats.make (state b) (length_ (failures b)) (successes b) (openedAt b)
     (match state b with
      | OPEN => Z.max 0 (openTimeout (config b) - (clk 0%nat - openedAt b))
      | _ => 0
      end),
   b).
Proof. destruct b as [s fs n t cfg]; now destruct s. Qed.

Ltac by_equations :=
  unfold invoke, timeUntilHalfOpen, after, result;
  rewrite ?call_canExecute, ?call_recordSuccess, ?call_recordFailure, ?call_reset,
    ?call_getState, ?call_getStats, ?call_transitionTo, ?call_cleanOldFailures;
  cbn [fst snd].

(** Case analysis over the branches a call can take. *)
Ltac branches :=
  by_equations;
  unfold opened, closed, with_failures;
  cbn [state failures successes openedAt config fst snd];
  repeat (match goal with
          | |- context [match state ?b with _ => _ end] => destruct (state b) eqn:?
          | |- context [if ?c then _ else _] => destruct c eqn:?
          end;
          unfold opened, closed, with_failures;
          cbn [state failures successes openedAt config fst snd]).

(** Closed facts about concrete objects are settled by running the code. *)
Ltac by_running := vm_compute; first [reflexivity | discriminate].

Lemma Zgeb_ge (a b : Z) : a >= b -> (a >=? b) = true.
Proof. intros; apply Z.geb_le; lia. Qed.

Lemma Zgeb_lt (a b : Z) : a < b -> (a >=? b) = false.
Proof. intros; rewrite Z.geb_leb; apply Z.leb_gt; lia. Qed.

(** * Filtered errors *)

Lemma after_recordFailure_filtered clk e b :
  shouldCountError (config b) e = false -> after (recordFailure e) clk b = b.
Proof. intros Hfilter. by_equations. now rewrite Hfilter. Qed.

(** C7.  For every state of the breaker and every error that
    [shouldCountError] rejects, [recordFailure(error)] leaves the whole object
    as it was: nothing is appended to the failure sequence, and the state, the
    successes counter, [openedAt] (and the configuration) keep their values. *)
Theorem recordFailure_filtered_is_ignored :
  forall (clk : Clock) (e : Error) (b : CircuitBreaker),
    shouldCountError (config b) e = false ->
    after (recordFailure e) clk b = b.
Proof.
  intros clk e b Hfilter. now apply after_recordFailure_filtered.
Qed.

Lemma recordFailure_filtered_is_ignored_witness :
  shouldCountError (config probed_once) (mkError "socket hang up") = false /\
  after (recordFailure (mkError "socket hang up")) (at_ 31010) probed_once = probed_once.
Proof.
  split.
  - reflexivity.
  - apply (recordFailure_filtered_is_ignored (at_ 31010) (mkError "socket hang up") probed_once).
    reflexivity.
Defined.

(** * Reset *)

(** C8.  From any object whatever (reachable or not) [reset()] yields the
    state CLOSED with an empty failure sequence, zero successes and
    [openedAt] cleared to 0, the configuration being kept; a second [reset()]
    right after the first changes nothing more. *)
Theorem reset_closes_and_is_idempotent :
  forall (clk clk' : Clock) (b : CircuitBreaker),
    state (after reset clk b) = CLOSED /\
    failures (after reset clk b) = [] /\
    successes (after reset clk b) = 0 /\
    openedAt (after reset clk b) = 0 /\
    config (after reset clk b) = config b /\
    after reset clk' (after reset clk b) = after reset clk b.
Proof.
  intros clk clk' b. by_equations. repeat split.
Qed.

(** * Probing: the HALF_OPEN state *)

(** C5.  In HALF_OPEN one qualifying [recordFailure(error)], whatever the
    successes counter holds, appends the failure record (stamped with the
    call's first clock reading) and moves to OPEN, [openedAt] being the clock
    reading taken by the transition; the successes are zeroed. *)
Theorem half_open_failure_reopens :
  forall (clk : Clock) (e : Error) (b : CircuitBreaker),
    state b = HALF_OPEN ->
    shouldCountError (config b) e = true ->
    failures (after (recordFailure e) clk b)
      = failures b ++ [mkFailure (clk 0%nat) (message e)] /\
    state (after (recordFailure e) clk b) = OPEN /\
    openedAt (after (recordFailure e) clk b) = clk 1%nat /\
    successes (after (recordFailure e) clk b) = 0 /\
    config (after (recordFailure e) clk b) = config b.
Proof.
  intros clk e b Hs He. by_equations. rewrite He, Hs. cbn. repeat split.
Qed.

Lemma half_open_failure_reopens_witness :
  state probed_once = HALF_OPEN /\
  successes probed_once = 1 /\
  shouldCountError (config probed_once) (mkError "Bad MAC: failed to decrypt") = true /\
  state (after (recordFailure (mkError "Bad MAC: failed to decrypt")) (at_ 31010) probed_once)
    = OPEN /\
  openedAt (after (recordFailure (mkError "Bad MAC: failed to decrypt")) (at_ 31010) probed_once)
    = 31010.
Proof.
  do 3 (split; [reflexivity|]).
  split;
    apply (half_open_failure_reopens (at_ 31010) (mkError "Bad MAC: failed to decrypt")
             probed_once); reflexivity.
Defined.

(** C6.  In HALF_OPEN every [recordSuccess()] adds one to the successes;
    while the new count is below [successThreshold] the state stays HALF_OPEN
    and nothing else changes, and the call whose count reaches
    [successThreshold] moves to CLOSED with the failure sequence emptied.
    With [successThreshold = 2], starting from a HALF_OPEN object with no
    successes yet (as it is on entry): the first success keeps HALF_OPEN, the
    second gives CLOSED and an empty failure sequence. *)
Theorem half_open_success_closes_at_threshold :
  forall (clk : Clock) (b : CircuitBreaker),
    state b = HALF_OPEN ->
    (successes b + 1 < successThreshold (config b) ->
     state (after recordSuccess clk b) = HALF_OPEN /\
     successes (after recordSuccess clk b) = successes b + 1 /\
     failures (after recordSuccess clk b) = failures b /\
     openedAt (after recordSuccess clk b) = openedAt b) /\
    (successes b + 1 >= successThreshold (config b) ->
     state (after recordSuccess clk b) = CLOSED /\
     failures (after recordSuccess clk b) = []) /\
    (forall clk' : Clock,
       successThreshold (config b) = 2 ->
       successes b = 0 ->
       state (after recordSuccess clk b) = HALF_OPEN /\
       successes (after recordSuccess clk b) = 1 /\
       state (after recordSuccess clk' (after recordSuccess clk b)) = CLOSED /\
       failures (after recordSuccess clk' (after recordSuccess clk b)) = []).
Proof.
  intros clk b Hs. repeat split; intros; by_equations; rewrite ?Hs.
  1-4: rewrite Zgeb_lt by assumption; cbn; congruence.
  1-2: rewrite Zgeb_ge by assumption; reflexivity.
  all: rewrite Zgeb_lt by lia; cbn; try lia; try reflexivity.
  all: rewrite Zgeb_ge by lia; reflexivity.
Qed.

Lemma half_open_success_closes_at_threshold_witness :
  state probing = HALF_OPEN /\
  successThreshold (config probing) = 2 /\
  successes probing = 0 /\
  state (after recordSuccess (at_ 31005) probing) = HALF_OPEN /\
  state (after recordSuccess (at_ 31020) (after recordSuccess (at_ 31005) probing)) = CLOSED /\
  failures (after recordSuccess (at_ 31020) (after recordSuccess (at_ 31005) probing)) = [].
Proof.
  do 3 (split; [reflexivity|]).
  pose proof (half_open_success_closes_at_threshold (at_ 31005) probing eq_refl) as [_ [_ H]].
  specialize (H (at_ 31020) eq_refl eq_refl).
  destruct H as [H1 [_ [H3 H4]]]. auto.
Defined.

(** * The OPEN state and its timeout *)

Lemma canExecute_open_early clk b :
  state b = OPEN ->
  clk 1%nat - openedAt b < openTimeout (config b) ->
  result canExecute clk b = false /\
  state (after canExecute clk b) = OPEN /\
  openedAt (after canExecute clk b) = openedAt b.
Proof.
  intros Hs Hlt. by_equations. rewrite Hs, Zgeb_lt by assumption.
  repeat split; assumption.
Qed.

Lemma canExecute_open_late clk b :
  state b = OPEN ->
  clk 1%nat - openedAt b >= openTimeout (config b) ->
  result canExecute clk b = true /\
  state (after canExecute clk b) = HALF_OPEN.
Proof.
  intros Hs Hge. by_equations. rewrite Hs, Zgeb_ge by assumption. repeat split.
Qed.

(** C4.  In OPEN, [canExecute()] compares the time elapsed since [openedAt]
    (clock reading minus [openedAt]; it is the call's second reading, the
    first being taken by the pruning pass) with [openTimeout]: strictly less,
    it returns false and the state, [openedAt] and the successes stay; at
    least [openTimeout], it moves to HALF_OPEN and returns true.  With
    [openTimeout = 30000] and the circuit opened at t = 0: the call at
    t = 29999 returns false in state OPEN, the next one at t = 30000 returns
    true in state HALF_OPEN. *)
Theorem open_blocks_until_timeout :
  forall (clk : Clock) (b : CircuitBreaker),
    state b = OPEN ->
    (clk 1%nat - openedAt b < openTimeout (config b) ->
     result canExecute clk b = false /\
     state (after canExecute clk b) = OPEN /\
     openedAt (after canExecute clk b) = openedAt b) /\
    (clk 1%nat - openedAt b >= openTimeout (config b) ->
     result canExecute clk b = true /\
     state (after canExecute clk b) = HALF_OPEN) /\
    (openTimeout (config b) = 30000 ->
     openedAt b = 0 ->
     result canExecute (at_ 29999) b = false /\
     state (after canExecute (at_ 29999) b) = OPEN /\
     result canExecute (at_ 30000) (after canExecute (at_ 29999) b) = true /\
     state (after canExecute (at_ 30000) (after canExecute (at_ 29999) b)) = HALF_OPEN).
Proof.
  intros clk b Hs. split; [|split].
  - now apply canExecute_open_early.
  - now apply canExecute_open_late.
  - intros Hto Hat.
    destruct (canExecute_open_early (at_ 29999) b Hs) as (R1 & S1 & A1);
      [unfold at_; lia|].
    assert (C1 : config (after canExecute (at_ 29999) b) = config b)
      by (by_equations; rewrite Hs; now destruct (_ >=? _)).
    destruct (canExecute_open_late (at_ 30000) _ S1) as (R2 & S2);
      [rewrite A1, C1; unfold at_; lia|].
    auto.
Qed.

Lemma open_blocks_until_timeout_witness :
  state (tripped_at 0) = OPEN /\
  openTimeout (config (tripped_at 0)) = 30000 /\
  openedAt (tripped_at 0) = 0 /\
  result canExecute (at_ 29999) (tripped_at 0) = false /\
  state (after canExecute (at_ 29999) (tripped_at 0)) = OPEN /\
  result canExecute (at_ 30000)
    (after canExecute (at_ 29999) (tripped_at 0)) = true /\
  state (after canExecute (at_ 30000)
           (after canExecute (at_ 29999) (tripped_at 0))) = HALF_OPEN.
Proof.
  do 3 (split; [reflexivity|]).
  pose proof (open_blocks_until_timeout (at_ 0) (tripped_at 0) eq_refl)
    as [_ [_ H]].
  exact (H eq_refl eq_refl).
Defined.

(** * Statistics *)

Lemma staysOpen_head ms b : staysOpen ms b -> state b = OPEN.
Proof. destruct ms as [|[m clk] rest]; cbn; tauto. Qed.

(** A call that starts and ends in OPEN changes neither [openedAt] nor the
    configuration. *)
Lemma invoke_open_open m clk b :
  state b = OPEN -> state (invoke m clk b) = OPEN ->
  openedAt (invoke m clk b) = openedAt b /\ config (invoke m clk b) = config b.
Proof.
  destruct m; branches; intros; try (split; reflexivity); congruence.
Qed.

Lemma staysOpen_invokes ms : forall b,
  staysOpen ms b ->
  state (invokes ms b) = OPEN /\
  openedAt (invokes ms b) = openedAt b /\
  config (invokes ms b) = config b.
Proof.
  induction ms as [|[m clk] rest IH]; intros b H.
  - cbn in *. tauto.
  - destruct H as [Hs Hrest]. cbn [invokes].
    destruct (IH _ Hrest) as (Hs' & Hat & Hcfg).
    destruct (invoke_open_open m clk b Hs (staysOpen_head _ _ Hrest)) as [Hat1 Hcfg1].
    repeat split; congruence.
Qed.

(** C9.  [getStats()] leaves the object as it is; [timeUntilHalfOpen] is 0
    in CLOSED and HALF_OPEN; in OPEN it is
    [max(0, openTimeout - (now - openedAt))], and as long as the state stays
    OPEN (through any calls made in between) a later clock reading gives a
    value that is no larger, and strictly smaller whenever the earlier value
    was not yet 0.  The two statements about OPEN are for numbers on which
    the code's double arithmetic is exact ([exactRemaining]): [openTimeout],
    the clock reading, [openedAt] and the two differences are safe
    integers. *)
Theorem getStats_timeUntilHalfOpen :
  forall (clk : Clock) (b : CircuitBreaker),
    after getStats clk b = b /\
    (state b = OPEN ->
     exactRemaining (clk 0%nat) b ->
     timeUntilHalfOpen clk b
       = Z.max 0 (openTimeout (config b) - (clk 0%nat - openedAt b))) /\
    (state b = CLOSED \/ state b = HALF_OPEN -> timeUntilHalfOpen clk b = 0) /\
    (forall (ms : list (Method * Clock)) (clk' : Clock),
       staysOpen ms b ->
       exactRemaining (clk 0%nat) b ->
       exactRemaining (clk' 0%nat) (invokes ms b) ->
       clk 0%nat < clk' 0%nat ->
       timeUntilHalfOpen clk' (invokes ms b) <= timeUntilHalfOpen clk b /\
       (0 < timeUntilHalfOpen clk b ->
        timeUntilHalfOpen clk' (invokes ms b) < timeUntilHalfOpen clk b)).
Proof.
  intros clk b. split; [|split; [|split]].
  - now by_equations.
  - intros Hs _. by_equations. cbn. now rewrite Hs.
  - intros [Hs|Hs]; by_equations; cbn; now rewrite Hs.
  - intros ms clk' Hopen _ _ Hclk.
    destruct (staysOpen_invokes ms b Hopen) as (Hs' & Hat & Hcfg).
    pose proof (staysOpen_head _ _ Hopen) as Hs.
    by_equations. cbn. rewrite Hs, Hs', Hat, Hcfg. lia.
Qed.

Lemma getStats_timeUntilHalfOpen_witness :
  staysOpen [(RecordFailure (mkError "session closed"), at_ 2000); (CanExecute, at_ 3000)]
    tripped /\
  exactRemaining (at_ 1500 0%nat) tripped /\
  exactRemaining (at_ 4000 0%nat)
    (invokes [(RecordFailure (mkError "session closed"), at_ 2000); (CanExecute, at_ 3000)]
       tripped) /\
  timeUntilHalfOpen (at_ 1500) tripped = 29500 /\
  timeUntilHalfOpen (at_ 4000)
    (invokes [(RecordFailure (mkError "session closed"), at_ 2000); (CanExecute, at_ 3000)]
       tripped) < timeUntilHalfOpen (at_ 1500) tripped.
Proof.
  assert (O : staysOpen
                [(RecordFailure (mkError "session closed"), at_ 2000); (CanExecute, at_ 3000)]
                tripped) by (cbn; auto).
  assert (E1 : exactRemaining (at_ 1500 0%nat) tripped)
    by (unfold exactRemaining, isSafeInteger; repeat split; by_running).
  assert (E2 : exactRemaining (at_ 4000 0%nat)
                 (invokes [(RecordFailure (mkError "session closed"), at_ 2000);
                           (CanExecute, at_ 3000)] tripped))
    by (unfold exactRemaining, isSafeInteger; repeat split; by_running).
  assert (P : 0 < timeUntilHalfOpen (at_ 1500) tripped) by by_running.
  split; [exact O|]. split; [exact E1|]. split; [exact E2|]. split; [reflexivity|].
  exact (proj2 (proj2 (proj2 (proj2 (getStats_timeUntilHalfOpen (at_ 1500) tripped)))
                  _ (at_ 4000) O E1 E2 eq_refl) P).
Defined.

(** * Reachable objects *)

Lemma recordFailures_reachable c calls : forall b,
  reachable c b -> reachable c (recordFailures calls b).
Proof.
  induction calls as [|[clk e] rest IH]; intros b Hb; cbn [recordFailures].
  - exact Hb.
  - apply IH. exact (reach_invoke c (RecordFailure e) clk b Hb).
Qed.

Lemma tripped_at_reachable t : reachable preKeyConfig (tripped_at t).
Proof. apply recordFailures_reachable, reach_new. Qed.

Lemma reach_canExecute c clk b :
  reachable c b -> reachable c (after canExecute clk b).
Proof. exact (reach_invoke c CanExecute clk b). Qed.

Lemma reach_recordSuccess c clk b :
  reachable c b -> reachable c (after recordSuccess clk b).
Proof. exact (reach_invoke c RecordSuccess clk b). Qed.

Lemma probing_reachable : reachable preKeyConfig probing.
Proof. unfold probing, tripped. apply reach_canExecute, tripped_at_reachable. Qed.

Lemma probed_once_reachable : reachable preKeyConfig probed_once.
Proof. unfold probed_once. apply reach_recordSuccess, probing_reachable. Qed.

(** Every transition zeroes the successes. *)
Lemma transitionTo_zeroes_successes s clk b :
  successes (after (transitionTo s) clk b) = 0.
Proof. by_equations. now destruct s. Qed.

(** What one call can do to the successes: keep them, zero them, or (only
    [recordSuccess()] in HALF_OPEN, staying there) add one. *)
Lemma invoke_successes m clk b :
  successes (invoke m clk b) = successes b \/
  successes (invoke m clk b) = 0 \/
  (m = RecordSuccess /\ state b = HALF_OPEN /\ state (invoke m clk b) = HALF_OPEN /\
   successes (invoke m clk b) = successes b + 1).
Proof.
  destruct m; branches; auto.
  right; right; auto.
Qed.

Lemma invoke_keeps_successes_idle m clk b :
  (state b <> HALF_OPEN -> successes b = 0) ->
  state (invoke m clk b) <> HALF_OPEN -> successes (invoke m clk b) = 0.
Proof.
  intros Hinv. destruct m; branches; intros; try reflexivity; try congruence;
    apply Hinv; congruence.
Qed.

(** C10.  In every object reachable from construction through [canExecute],
    [recordSuccess], [recordFailure], [reset] (and the two accessors), under
    any clock, the successes are 0 whenever the state is not HALF_OPEN.  The
    reasons: every transition zeroes them, and a call changes them only by
    zeroing them or, for [recordSuccess()] in HALF_OPEN, by adding one. *)
Theorem successes_zero_outside_half_open :
  forall (c : CircuitBreakerConfig.t) (b : CircuitBreaker),
    reachable c b ->
    (state b <> HALF_OPEN -> successes b = 0) /\
    (forall (s : CircuitBreakerState) (clk : Clock),
       successes (after (transitionTo s) clk b) = 0) /\
    (forall (m : Method) (clk : Clock),
       successes (invoke m clk b) = successes b \/
       successes (invoke m clk b) = 0 \/
       (m = RecordSuccess /\ state b = HALF_OPEN /\ state (invoke m clk b) = HALF_OPEN /\
        successes (invoke m clk b) = successes b + 1)).
Proof.
  intros c b Hreach. split; [|split].
  - induction Hreach as [|m clk b Hb IH].
    + reflexivity.
    + now apply invoke_keeps_successes_idle.
  - intros s clk. apply transitionTo_zeroes_successes.
  - intros m clk. apply invoke_successes.
Qed.

Lemma successes_zero_outside_half_open_witness :
  reachable preKeyConfig (invoke (RecordFailure (mkError "no session")) (at_ 31010) probed_once) /\
  state (invoke (RecordFailure (mkError "no session")) (at_ 31010) probed_once) <> HALF_OPEN /\
  successes probed_once = 1 /\
  successes (invoke (RecordFailure (mkError "no session")) (at_ 31010) probed_once) = 0.
Proof.
  assert (R : reachable preKeyConfig
                (invoke (RecordFailure (mkError "no session")) (at_ 31010) probed_once)).
  { apply reach_invoke, probed_once_reachable. }
  assert (S : state (invoke (RecordFailure (mkError "no session")) (at_ 31010) probed_once)
              <> HALF_OPEN) by by_running.
  split; [exact R|]. split; [exact S|]. split; [reflexivity|].
  exact (proj1 (successes_zero_outside_half_open preKeyConfig _ R) S).
Defined.

(** * The open instant *)

(** C1, as amended.  [openedAt] is written by transitions only: entering OPEN
    sets it to the clock reading the transition takes, entering CLOSED
    (through [reset()], or through the success that closes a HALF_OPEN
    circuit) clears it to 0, and entering HALF_OPEN leaves it.  For the
    public methods: a call that moves a non-OPEN object to OPEN stores the
    reading (the second of the call from HALF_OPEN, the third from CLOSED);
    a call ending in HALF_OPEN keeps [openedAt]; and every call other than
    [reset()] that ends in the state it started in keeps [openedAt]. *)
Theorem openedAt_written_by_transitions_only :
  forall (m : Method) (clk : Clock) (b : CircuitBreaker),
    (forall s : CircuitBreakerState,
       openedAt (after (transitionTo s) clk b)
         = match s with
           | OPEN => clk 0%nat
           | HALF_OPEN => openedAt b
           | CLOSED => 0
           end) /\
    (state b <> OPEN -> state (invoke m clk b) = OPEN ->
     openedAt (invoke m clk b)
       = match state b with HALF_OPEN => clk 1%nat | _ => clk 2%nat end) /\
    (state (invoke m clk b) = CLOSED -> m = Reset \/ state b <> CLOSED ->
     openedAt (invoke m clk b) = 0) /\
    (state (invoke m clk b) = HALF_OPEN ->
     openedAt (invoke m clk b) = openedAt b) /\
    (m <> Reset -> state (invoke m clk b) = state b ->
     openedAt (invoke m clk b) = openedAt b).
Proof.
  intros m clk b. split; [|split; [|split; [|split]]].
  - intros s. by_equations. now destruct s.
  - destruct m; branches; intros; congruence.
  - destruct m; branches; intros ? [?|?]; congruence.
  - destruct m; branches; intros; congruence.
  - destruct m; branches; intros; congruence.
Qed.

Lemma openedAt_written_by_transitions_only_witness :
  state probing <> OPEN /\
  state (invoke (RecordFailure (mkError "decrypt failed")) (at_ 40000) probing) = OPEN /\
  openedAt probing = 1000 /\
  openedAt (invoke (RecordFailure (mkError "decrypt failed")) (at_ 40000) probing) = 40000.
Proof.
  assert (S : state probing <> OPEN) by by_running.
  assert (S' : state (invoke (RecordFailure (mkError "decrypt failed")) (at_ 40000) probing)
               = OPEN) by reflexivity.
  split; [exact S|]. split; [exact S'|]. split; [reflexivity|].
  exact (proj1 (proj2 (openedAt_written_by_transitions_only
                         (RecordFailure (mkError "decrypt failed")) (at_ 40000) probing))
           S S').
Defined.

(** C1, as stated, fails: transitions into CLOSED write [openedAt] too.  The
    PreKey breaker opened at t = 1000 and then reset has [openedAt] 0, and so
    has the one that was closed by its second successful probe. *)
Lemma openedAt_cleared_on_close_counterexample :
  reachable preKeyConfig tripped /\
  state (invoke Reset (at_ 5000) tripped) <> OPEN /\
  openedAt (invoke Reset (at_ 5000) tripped) <> openedAt tripped /\
  reachable preKeyConfig probed_once /\
  state (invoke RecordSuccess (at_ 31020) probed_once) <> OPEN /\
  openedAt (invoke RecordSuccess (at_ 31020) probed_once) <> openedAt probed_once.
Proof.
  split; [apply tripped_at_reachable|].
  split; [by_running|]. split; [by_running|].
  split; [apply probed_once_reachable|].
  split; by_running.
Qed.

(** * The sliding window *)

Lemma In_pruned now b f :
  In f (pruned now b) <->
  In f (failures b) /\ timestamp f > now - failureWindow (config b).
Proof.
  unfold pruned. rewrite filter_In, Z.gtb_lt. intuition lia.
Qed.

(** A qualifying failure in CLOSED: append, prune at the second clock
    reading, then open (third reading) if the pruned count has reached the
    threshold. *)
Lemma after_recordFailure_closed clk e b :
  state b = CLOSED ->
  shouldCountError (config b) e = true ->
  after (recordFailure e) clk b =
  let b2 := with_failures
              (filter (fun f => timestamp f >? clk 1%nat - failureWindow (config b))
                 (failures b ++ [mkFailure (clk 0%nat) (message e)])) b in
  if length_ (failures b2) >=? failureThreshold (config b)
  then opened (clk 2%nat) b2
  else b2.
Proof.
  intros Hs He. by_equations. now rewrite He, Hs.
Qed.

(** C3.  After a pruning pass the failure sequence holds exactly the records
    it held before whose timestamp is greater than [now - failureWindow],
    [now] being the clock reading of the pass; so a failure recorded at T is
    gone once [now - T >= failureWindow].  The pass is run by [canExecute()]
    (first reading), by [recordSuccess()] in CLOSED (first reading) and by a
    qualifying [recordFailure()] in CLOSED (second reading, after the new
    record was appended).  With [failureThreshold = 5] and
    [failureWindow = 60000], four qualifying failures at t = 0 and a fifth at
    t = 61000, on a CLOSED breaker with no failures, leave the state CLOSED
    with the fifth failure as the only record. *)
Theorem pruning_keeps_only_the_window :
  forall (clk : Clock) (b : CircuitBreaker),
    (forall f : FailureRecord,
       In f (failures (after canExecute clk b)) <->
       In f (failures b) /\ timestamp f > clk 0%nat - failureWindow (config b)) /\
    (state b = CLOSED ->
     forall f : FailureRecord,
       In f (failures (after recordSuccess clk b)) <->
       In f (failures b) /\ timestamp f > clk 0%nat - failureWindow (config b)) /\
    (forall e : Error,
       state b = CLOSED ->
       shouldCountError (config b) e = true ->
       forall f : FailureRecord,
         In f (failures (after (recordFailure e) clk b)) <->
         In f (failures b ++ [mkFailure (clk 0%nat) (message e)]) /\
         timestamp f > clk 1%nat - failureWindow (config b)) /\
    (forall e1 e2 e3 e4 e5 : Error,
       state b = CLOSED ->
       failures b = [] ->
       failureThreshold (config b) = 5 ->
       failureWindow (config b) = 60000 ->
       Forall (fun e => shouldCountError (config b) e = true) [e1; e2; e3; e4; e5] ->
       state (recordFailures
                [(at_ 0, e1); (at_ 0, e2); (at_ 0, e3); (at_ 0, e4); (at_ 61000, e5)] b)
         = CLOSED /\
       failures (recordFailures
                   [(at_ 0, e1); (at_ 0, e2); (at_ 0, e3); (at_ 0, e4); (at_ 61000, e5)] b)
         = [mkFailure 61000 (message e5)]).
Proof.
  intros clk b. split; [|split; [|split]].
  - intro f. rewrite <- In_pruned. branches; reflexivity.
  - intros Hs f. rewrite <- In_pruned. by_equations. rewrite Hs. reflexivity.
  - intros e Hs He f. rewrite after_recordFailure_closed by assumption.
    cbn zeta. destruct (_ >=? _); cbn [opened with_failures failures];
      rewrite filter_In, Z.gtb_lt; intuition lia.
  - intros e1 e2 e3 e4 e5 Hs Hfs Hth Hw Hall.
    destruct b as [s fs n t [th w ot st count]]. cbn in Hs, Hfs, Hth, Hw, Hall.
    subst s fs th w.
    repeat match goal with
           | H : Forall _ (_ :: _) |- _ => inversion H; subst; clear H
           end.
    cbn [recordFailures].
    repeat (match goal with
            | |- context [after (recordFailure ?e) ?c (mkCircuitBreaker ?s ?fs ?k ?o ?cfg)] =>
                rewrite (after_recordFailure_closed c e (mkCircuitBreaker s fs k o cfg))
                  by (cbn; auto)
            end;
            unfold with_failures, opened, length_, at_; cbn).
    split; reflexivity.
Qed.

Lemma pruning_keeps_only_the_window_witness :
  state createPreKeyCircuitBreaker = CLOSED /\
  failures createPreKeyCircuitBreaker = [] /\
  Forall (fun e => shouldCountError (config createPreKeyCircuitBreaker) e = true)
    [mkError "Invalid PreKey ID"; mkError "No session found";
     mkError "pre-key missing"; mkError "Key used already or never filled";
     mkError "Failed to decrypt message"] /\
  state (recordFailures
           [(at_ 0, mkError "Invalid PreKey ID"); (at_ 0, mkError "No session found");
            (at_ 0, mkError "pre-key missing");
            (at_ 0, mkError "Key used already or never filled");
            (at_ 61000, mkError "Failed to decrypt message")]
           createPreKeyCircuitBreaker) = CLOSED /\
  failures (recordFailures
           [(at_ 0, mkError "Invalid PreKey ID"); (at_ 0, mkError "No session found");
            (at_ 0, mkError "pre-key missing");
            (at_ 0, mkError "Key used already or never filled");
            (at_ 61000, mkError "Failed to decrypt message")]
           createPreKeyCircuitBreaker) = [mkFailure 61000 "Failed to decrypt message"].
Proof.
  assert (Q : Forall (fun e => shouldCountError (config createPreKeyCircuitBreaker) e = true)
                [mkError "Invalid PreKey ID"; mkError "No session found";
                 mkError "pre-key missing"; mkError "Key used already or never filled";
                 mkError "Failed to decrypt message"])
    by (repeat constructor).
  split; [reflexivity|]. split; [reflexivity|]. split; [exact Q|].
  exact (proj2 (proj2 (proj2 (pruning_keeps_only_the_window (at_ 0) createPreKeyCircuitBreaker)))
           _ _ _ _ _ eq_refl eq_refl eq_refl eq_refl Q).
Defined.

(** * The failure threshold *)

Lemma closedThroughout_head calls b : closedThroughout calls b -> state b = CLOSED.
Proof. destruct calls as [|[clk e] rest]; cbn; tauto. Qed.

(** Below the threshold a failure, counted or not, leaves a CLOSED breaker
    CLOSED and lengthens the failure sequence by one record at most. *)
Lemma recordFailure_below_threshold clk e b :
  state b = CLOSED ->
  length_ (failures b) + 1 < failureThreshold (config b) ->
  state (after (recordFailure e) clk b) = CLOSED /\
  config (after (recordFailure e) clk b) = config b /\
  length_ (failures (after (recordFailure e) clk b)) <= length_ (failures b) + 1.
Proof.
  intros Hs Hlen. destruct (shouldCountError (config b) e) eqn:He.
  - rewrite after_recordFailure_closed by assumption. cbn zeta.
    assert (Hle : length_ (failures
                    (with_failures
                       (filter (fun f => timestamp f >? clk 1%nat - failureWindow (config b))
                          (failures b ++ [mkFailure (clk 0%nat) (message e)])) b))
                  <= length_ (failures b) + 1).
    { cbn [with_failures failures]. unfold length_.
      pose proof (filter_length_le
                    (fun f => timestamp f >? clk 1%nat - failureWindow (config b))
                    (failures b ++ [mkFailure (clk 0%nat) (message e)])) as Hf.
      rewrite length_app in Hf. cbn [List.length] in Hf. lia. }
    rewrite Zgeb_lt by lia. cbn [with_failures state config]. auto.
  - rewrite after_recordFailure_filtered by assumption. repeat split; auto; lia.
Qed.

Lemma few_failures_stay_closed calls : forall b,
  state b = CLOSED ->
  length_ (failures b) + Z.of_nat (List.length calls) < failureThreshold (config b) ->
  closedThroughout calls b.
Proof.
  induction calls as [|[clk e] rest IH]; intros b Hs Hlen; cbn [closedThroughout].
  - auto.
  - split; [exact Hs|]. cbn [List.length] in Hlen.
    destruct (recordFailure_below_threshold clk e b Hs) as (Hs' & Hcfg & Hle); [lia|].
    apply IH; [exact Hs'|]. rewrite Hcfg. lia.
Qed.

(** Records inside the window at [now] survive a pruning pass made no later
    than [now]. *)
Lemma filter_window_earlier (now earlier w : Z) (l : list FailureRecord) :
  earlier <= now ->
  filter (fun f => timestamp f >? now - w) (filter (fun f => timestamp f >? earlier - w) l)
  = filter (fun f => timestamp f >? now - w) l.
Proof.
  intros Hle. induction l as [|f l IH]; [reflexivity|]. cbn [filter].
  destruct (timestamp f >? earlier - w) eqn:E1; cbn [filter];
    destruct (timestamp f >? now - w) eqn:E2; rewrite ?IH; try reflexivity.
  apply Z.gtb_lt in E2. rewrite Z.gtb_ltb in E1. apply Z.ltb_ge in E1. lia.
Qed.

Lemma filter_window_snoc (now w t : Z) (msg : string) (l : list FailureRecord) :
  t > now - w ->
  filter (fun f => timestamp f >? now - w) (l ++ [mkFailure t msg])
  = filter (fun f => timestamp f >? now - w) l ++ [mkFailure t msg].
Proof.
  intros Ht. rewrite filter_app. cbn [filter timestamp].
  assert (E : (t >? now - w) = true) by (apply Z.gtb_lt; lia).
  now rewrite E.
Qed.

(** While the breaker stays CLOSED, every qualifying failure stamped inside
    the window at [now], and pruned no later than [now], is still on record. *)
Lemma closed_run_retains (now : Z) calls : forall b,
  closedThroughout calls b ->
  Forall (fun ce => shouldCountError (config b) (snd ce) = true) calls ->
  Forall (fun ce : Clock * Error =>
            fst ce 0%nat > now - failureWindow (config b) /\ fst ce 1%nat <= now) calls ->
  state (recordFailures calls b) = CLOSED /\
  config (recordFailures calls b) = config b /\
  List.length (filter (fun f => timestamp f >? now - failureWindow (config b))
                 (failures (recordFailures calls b)))
  = (List.length (filter (fun f => timestamp f >? now - failureWindow (config b))
                    (failures b)) + List.length calls)%nat.
Proof.
  induction calls as [|[clk e] rest IH]; intros b Hclosed Hcount Hwin.
  - cbn. destruct Hclosed. auto.
  - destruct Hclosed as [Hs Hrest]. cbn [recordFailures].
    inversion Hcount as [|? ? He Hcount']; subst.
    inversion Hwin as [|? ? [Ht Hp] Hwin']; subst. cbn [fst snd] in *.
    pose proof (closedThroughout_head _ _ Hrest) as Hs'.
    assert (Hb' : after (recordFailure e) clk b
                  = with_failures
                      (filter (fun f => timestamp f >? clk 1%nat - failureWindow (config b))
                         (failures b ++ [mkFailure (clk 0%nat) (message e)])) b).
    { rewrite after_recordFailure_closed in Hs' |- * by assumption. cbn zeta in *.
      destruct (_ >=? _); [discriminate Hs' | reflexivity]. }
    assert (Hcfg : config (after (recordFailure e) clk b) = config b)
      by (now rewrite Hb').
    destruct (IH _ Hrest) as (Hs'' & Hcfg'' & Hlen); rewrite ?Hcfg; auto.
    rewrite Hcfg in *. repeat split; [exact Hs'' | congruence |].
    rewrite Hlen, Hb'. cbn [with_failures failures].
    rewrite filter_window_earlier by assumption.
    rewrite filter_window_snoc by assumption.
    rewrite length_app. cbn [List.length]. lia.
Qed.

(** C2.  Take a CLOSED breaker and [failureThreshold - 1] qualifying
    failures.  Starting with an empty failure sequence the breaker is CLOSED
    throughout them.  Whenever it is CLOSED throughout, [canExecute()] still
    returns true and leaves it CLOSED; and if one more qualifying failure
    arrives while all the timestamps (the earlier ones and its own) lie within
    [failureWindow] of the current time, i.e. of the reading [clk 1] its
    pruning pass takes, no earlier pruning pass having read a later time, then
    the state becomes OPEN with [openedAt] the next reading [clk 2], and
    [canExecute()] returns false, the state staying OPEN, for as long as the
    time elapsed since then is below [openTimeout]. *)
Theorem threshold_opens_the_circuit :
  forall (b : CircuitBreaker) (calls : list (Clock * Error)) (clk : Clock) (e : Error),
    state b = CLOSED ->
    Forall (fun ce => shouldCountError (config b) (snd ce) = true) calls ->
    Z.of_nat (List.length calls) = failureThreshold (config b) - 1 ->
    (failures b = [] -> closedThroughout calls b) /\
    (closedThroughout calls b ->
     (forall clk' : Clock,
        result canExecute clk' (recordFailures calls b) = true /\
        state (after canExecute clk' (recordFailures calls b)) = CLOSED) /\
     (shouldCountError (config b) e = true ->
      clk 0%nat > clk 1%nat - failureWindow (config b) ->
      Forall (fun ce : Clock * Error =>
                fst ce 0%nat > clk 1%nat - failureWindow (config b) /\
                fst ce 1%nat <= clk 1%nat) calls ->
      state (after (recordFailure e) clk (recordFailures calls b)) = OPEN /\
      openedAt (after (recordFailure e) clk (recordFailures calls b)) = clk 2%nat /\
      (forall clk' : Clock,
         clk' 1%nat - clk 2%nat < openTimeout (config b) ->
         result canExecute clk' (after (recordFailure e) clk (recordFailures calls b))
           = false /\
         state (after canExecute clk'
                  (after (recordFailure e) clk (recordFailures calls b))) = OPEN))).
Proof.
  intros b calls clk e Hs Hcount Hlen. split.
  - intros Hempty. apply few_failures_stay_closed; [exact Hs|].
    rewrite Hempty. unfold length_. cbn [List.length]. lia.
  - intros Hclosed. split.
    + intros clk'.
      assert (Hs1 : state (recordFailures calls b) = CLOSED).
      { clear - Hclosed. revert b Hclosed.
        induction calls as [|[c e'] rest IH]; intros b H; destruct H as [H1 H2]; cbn; auto. }
      by_equations. rewrite Hs1. cbn. auto.
    + intros He Hnew Hwin.
      destruct (closed_run_retains (clk 1%nat) calls b Hclosed Hcount Hwin)
        as (Hs1 & Hcfg1 & Hkept).
      assert (Hopen : after (recordFailure e) clk (recordFailures calls b)
                      = opened (clk 2%nat)
                          (with_failures
                             (filter (fun f => timestamp f >? clk 1%nat - failureWindow (config b))
                                (failures (recordFailures calls b)
                                   ++ [mkFailure (clk 0%nat) (message e)]))
                             (recordFailures calls b))).
      { rewrite after_recordFailure_closed by (rewrite ?Hcfg1; assumption).
        cbn zeta. rewrite Hcfg1. rewrite Zgeb_ge; [reflexivity|].
        cbn [with_failures failures]. unfold length_.
        rewrite filter_window_snoc by assumption.
        rewrite length_app, Hkept. cbn [List.length]. lia. }
      rewrite Hopen. cbn [opened state openedAt]. split; [reflexivity|]. split; [reflexivity|].
      intros clk' Hearly.
      destruct (canExecute_open_early clk'
                  (opened (clk 2%nat)
                     (with_failures
                        (filter (fun f => timestamp f >? clk 1%nat - failureWindow (config b))
                           (failures (recordFailures calls b)
                              ++ [mkFailure (clk 0%nat) (message e)]))
                        (recordFailures calls b))))
        as (R & S & _); auto.
      cbn [opened with_failures openedAt config]. rewrite Hcfg1. exact Hearly.
Qed.

Lemma threshold_opens_the_circuit_witness :
  closedThroughout (repeat (at_ 0, mkError "No session found") 4) createPreKeyCircuitBreaker /\
  result canExecute (at_ 10)
    (recordFailures (repeat (at_ 0, mkError "No session found") 4) createPreKeyCircuitBreaker)
    = true /\
  state (after (recordFailure (mkError "Invalid PreKey ID")) (at_ 59999)
           (recordFailures (repeat (at_ 0, mkError "No session found") 4)
              createPreKeyCircuitBreaker)) = OPEN /\
  result canExecute (at_ 89998)
    (after (recordFailure (mkError "Invalid PreKey ID")) (at_ 59999)
       (recordFailures (repeat (at_ 0, mkError "No session found") 4)
          createPreKeyCircuitBreaker)) = false.
Proof.
  assert (Q : Forall (fun ce : Clock * Error =>
                        shouldCountError (config createPreKeyCircuitBreaker) (snd ce) = true)
                (repeat (at_ 0, mkError "No session found") 4))
    by (repeat constructor).
  assert (W : Forall (fun ce : Clock * Error =>
                        fst ce 0%nat > at_ 59999 1%nat
                                       - failureWindow (config createPreKeyCircuitBreaker) /\
                        fst ce 1%nat <= at_ 59999 1%nat)
                (repeat (at_ 0, mkError "No session found") 4))
    by (repeat constructor; by_running).
  destruct (threshold_opens_the_circuit createPreKeyCircuitBreaker
              (repeat (at_ 0, mkError "No session found") 4) (at_ 59999)
              (mkError "Invalid PreKey ID") eq_refl Q eq_refl) as [Hfresh Hrun].
  pose proof (Hfresh eq_refl) as Hclosed.
  destruct (Hrun Hclosed) as [Hcan Htrip].
  destruct (Htrip eq_refl eq_refl W) as (Hs & _ & Hblock).
  split; [exact Hclosed|]. split; [exact (proj1 (Hcan (at_ 10)))|].
  split; [exact Hs|]. exact (proj1 (Hblock (at_ 89998) eq_refl)).
Defined.

(** * Further properties of the breaker *)

(** ** The configuration *)

Lemma invoke_config m clk b : config (invoke m clk b) = config b.
Proof. destruct m; branches; reflexivity. Qed.

Lemma reachable_config c b : reachable c b -> config b = config (constructor c).
Proof.
  induction 1 as [|m clk b Hb IH]; [reflexivity|]. now rewrite invoke_config.
Qed.

(** X1.  No method writes the configuration: an object reachable from
    [new CircuitBreaker(c)] still holds the thresholds, durations and filter it
    was built with; and when the literal [c] has no [shouldCountError] key
    ([omitsFilter]) the default counts every error, on every reachable
    object. *)
Theorem config_is_fixed_at_construction :
  forall (c : CircuitBreakerConfig.t) (b : CircuitBreaker),
    reachable c b ->
    failureThreshold (config b) = CircuitBreakerConfig.failureThreshold c /\
    failureWindow (config b) = CircuitBreakerConfig.failureWindow c /\
    openTimeout (config b) = CircuitBreakerConfig.openTimeout c /\
    successThreshold (config b) = CircuitBreakerConfig.successThreshold c /\
    (forall p : Error -> bool,
       CircuitBreakerConfig.shouldCountError c = Some p ->
       shouldCountError (config b) = p) /\
    (omitsFilter c ->
     forall e : Error, shouldCountError (config b) e = true).
Proof.
  intros c b Hreach. rewrite (reachable_config c b Hreach). cbn.
  repeat split; try reflexivity.
  - intros p Hp. now rewrite Hp.
  - unfold omitsFilter. intros Hnone e. now rewrite Hnone.
Qed.

Lemma config_is_fixed_at_construction_witness :
  reachable (CircuitBreakerConfig.make 3 1000 500 1 None)
    (after (recordFailure (mkError "anything")) (at_ 10)
       (constructor (CircuitBreakerConfig.make 3 1000 500 1 None))) /\
  omitsFilter (CircuitBreakerConfig.make 3 1000 500 1 None) /\
  failureThreshold
    (config (after (recordFailure (mkError "anything")) (at_ 10)
               (constructor (CircuitBreakerConfig.make 3 1000 500 1 None)))) = 3 /\
  shouldCountError
    (config (after (recordFailure (mkError "anything")) (at_ 10)
               (constructor (CircuitBreakerConfig.make 3 1000 500 1 None))))
    (mkError "something else") = true.
Proof.
  assert (R : reachable (CircuitBreakerConfig.make 3 1000 500 1 None)
                (after (recordFailure (mkError "anything")) (at_ 10)
                   (constructor (CircuitBreakerConfig.make 3 1000 500 1 None))))
    by exact (reach_invoke _ (RecordFailure (mkError "anything")) (at_ 10) _
                (reach_new (CircuitBreakerConfig.make 3 1000 500 1 None))).
  assert (O : omitsFilter (CircuitBreakerConfig.make 3 1000 500 1 None)) by reflexivity.
  pose proof (config_is_fixed_at_construction _ _ R) as (H1 & _ & _ & _ & _ & H6).
  split; [exact R|]. split; [exact O|]. split; [exact H1|].
  exact (H6 O (mkError "something else")).
Defined.

(** ** Invariants of the CLOSED state *)

Lemma length_pruned_le now b : length_ (pruned now b) <= length_ (failures b).
Proof.
  unfold length_, pruned.
  pose proof (filter_length_le
                (fun f => timestamp f >? now - failureWindow (config b)) (failures b)).
  lia.
Qed.

Lemma invoke_keeps_closed_below_threshold m clk b :
  0 < failureThreshold (config b) ->
  (state b = CLOSED -> length_ (failures b) < failureThreshold (config b)) ->
  state (invoke m clk b) = CLOSED ->
  length_ (failures (invoke m clk b)) < failureThreshold (config b).
Proof.
  intros Hpos Hinv.
  assert (Hempty : length_ [] < failureThreshold (config b)) by exact Hpos.
  pose proof (length_pruned_le (clk 0%nat) b) as Hprune.
  destruct m; branches; intros Hs'; try discriminate Hs';
    try (specialize (Hinv eq_refl)); try lia; try congruence; auto.
Qed.

Lemma invoke_keeps_closed_cleared m clk b :
  (state b = CLOSED -> openedAt b = 0) ->
  state (invoke m clk b) = CLOSED -> openedAt (invoke m clk b) = 0.
Proof.
  intros Hinv. destruct m; branches; intros; try reflexivity; try congruence;
    apply Hinv; congruence.
Qed.

(** X2.  With a positive [failureThreshold], a reachable breaker that is
    CLOSED holds fewer than [failureThreshold] failure records: the count
    that would reach the threshold opens the circuit instead. *)
Theorem closed_holds_fewer_than_threshold :
  forall (c : CircuitBreakerConfig.t) (b : CircuitBreaker),
    reachable c b ->
    0 < CircuitBreakerConfig.failureThreshold c ->
    state b = CLOSED ->
    length_ (failures b) < failureThreshold (config b).
Proof.
  intros c b Hreach Hpos. induction Hreach as [|m clk b Hb IH].
  - intros _. exact Hpos.
  - rewrite invoke_config. apply invoke_keeps_closed_below_threshold; [|exact IH].
    rewrite (reachable_config c b Hb). exact Hpos.
Qed.

Lemma closed_holds_fewer_than_threshold_witness :
  reachable preKeyConfig
    (recordFailures (repeat (at_ 7, mkError "decrypt error") 4) createPreKeyCircuitBreaker) /\
  state (recordFailures (repeat (at_ 7, mkError "decrypt error") 4)
           createPreKeyCircuitBreaker) = CLOSED /\
  length_ (failures (recordFailures (repeat (at_ 7, mkError "decrypt error") 4)
                       createPreKeyCircuitBreaker)) < 5.
Proof.
  assert (R : reachable preKeyConfig
                (recordFailures (repeat (at_ 7, mkError "decrypt error") 4)
                   createPreKeyCircuitBreaker))
    by (apply recordFailures_reachable, reach_new).
  assert (S : state (recordFailures (repeat (at_ 7, mkError "decrypt error") 4)
                       createPreKeyCircuitBreaker) = CLOSED) by by_running.
  split; [exact R|]. split; [exact S|].
  exact (closed_holds_fewer_than_threshold preKeyConfig _ R eq_refl S).
Defined.

(** X3.  A reachable breaker that is CLOSED has [openedAt] cleared to 0. *)
Theorem closed_has_no_open_instant :
  forall (c : CircuitBreakerConfig.t) (b : CircuitBreaker),
    reachable c b -> state b = CLOSED -> openedAt b = 0.
Proof.
  intros c b Hreach. induction Hreach as [|m clk b Hb IH].
  - reflexivity.
  - now apply invoke_keeps_closed_cleared.
Qed.

Lemma closed_has_no_open_instant_witness :
  reachable preKeyConfig (after recordSuccess (at_ 31020) probed_once) /\
  state (after recordSuccess (at_ 31020) probed_once) = CLOSED /\
  openedAt probed_once = 1000 /\
  openedAt (after recordSuccess (at_ 31020) probed_once) = 0.
Proof.
  assert (R : reachable preKeyConfig (after recordSuccess (at_ 31020) probed_once))
    by (apply reach_recordSuccess, probed_once_reachable).
  assert (S : state (after recordSuccess (at_ 31020) probed_once) = CLOSED) by by_running.
  split; [exact R|]. split; [exact S|]. split; [by_running|].
  exact (closed_has_no_open_instant preKeyConfig _ R S).
Defined.

(** ** The transition graph *)

(** X4.  One call either leaves the state alone or makes one of five
    moves: CLOSED to OPEN and HALF_OPEN to OPEN (only [recordFailure]), OPEN
    to HALF_OPEN (only [canExecute]), HALF_OPEN to CLOSED (only
    [recordSuccess], or [reset]), and anything to CLOSED by [reset].  So no call
    takes CLOSED to HALF_OPEN, and only [reset] takes OPEN to CLOSED. *)
Theorem only_five_transitions :
  forall (m : Method) (clk : Clock) (b : CircuitBreaker),
    state (invoke m clk b) = state b \/
    (state b = CLOSED /\ state (invoke m clk b) = OPEN /\ exists e, m = RecordFailure e) \/
    (state b = HALF_OPEN /\ state (invoke m clk b) = OPEN /\ exists e, m = RecordFailure e) \/
    (state b = OPEN /\ state (invoke m clk b) = HALF_OPEN /\ m = CanExecute) \/
    (state b = HALF_OPEN /\ state (invoke m clk b) = CLOSED /\ m = RecordSuccess) \/
    (state (invoke m clk b) = CLOSED /\ m = Reset).
Proof.
  intros m clk b. destruct m; branches; auto 10; eauto 10.
Qed.

(** X5.  [canExecute()] returns false exactly when it leaves the breaker
    OPEN: a caller told true never faces an OPEN breaker, and one told false
    always does. *)
Theorem canExecute_false_iff_open :
  forall (clk : Clock) (b : CircuitBreaker),
    result canExecute clk b = false <-> state (after canExecute clk b) = OPEN.
Proof.
  intros clk b. branches; split; congruence.
Qed.

(** X6.  Asking again under the same clock readings changes nothing more:
    [canExecute()] repeated gives the same answer and the same object. *)
Theorem canExecute_twice_same_clock :
  forall (clk : Clock) (b : CircuitBreaker),
    after canExecute clk (after canExecute clk b) = after canExecute clk b /\
    result canExecute clk (after canExecute clk b) = result canExecute clk b.
Proof.
  intros clk b.
  assert (Hidem : forall s n t,
            pruned (clk 0%nat)
              (mkCircuitBreaker s (pruned (clk 0%nat) b) n t (config b))
            = pruned (clk 0%nat) b).
  { intros. unfold pruned. cbn [failures config].
    apply filter_window_earlier. lia. }
  unfold after, result. rewrite (call_canExecute clk b).
  destruct (state b) eqn:Hs.
  - cbn [fst snd]. rewrite call_canExecute. unfold with_failures.
    cbn [state failures successes openedAt config]. rewrite Hs, Hidem. auto.
  - destruct (_ >=? _) eqn:Ht; cbn [fst snd]; rewrite call_canExecute;
      unfold with_failures; cbn [state failures successes openedAt config];
      rewrite ?Hs, ?Ht, Hidem; auto.
  - cbn [fst snd]. rewrite call_canExecute. unfold with_failures.
    cbn [state failures successes openedAt config]. rewrite Hs, Hidem. auto.
Qed.

(** ** Reports while the circuit is OPEN *)

(** X7.  While OPEN, reported outcomes do not move the recovery time:
    [recordSuccess()] leaves the object as it is, and a counted
    [recordFailure()] only appends its record, unpruned; state, successes and
    [openedAt] stay, so [timeUntilHalfOpen] and the verdict of a later
    [canExecute()] are what they would have been. *)
Theorem open_ignores_reported_outcomes :
  forall (clk clk' : Clock) (e : Error) (b : CircuitBreaker),
    state b = OPEN ->
    after recordSuccess clk b = b /\
    (shouldCountError (config b) e = true ->
     failures (after (recordFailure e) clk b)
       = failures b ++ [mkFailure (clk 0%nat) (message e)]) /\
    state (after (recordFailure e) clk b) = OPEN /\
    successes (after (recordFailure e) clk b) = successes b /\
    openedAt (after (recordFailure e) clk b) = openedAt b /\
    timeUntilHalfOpen clk' (after (recordFailure e) clk b) = timeUntilHalfOpen clk' b /\
    result canExecute clk' (after (recordFailure e) clk b) = result canExecute clk' b.
Proof.
  intros clk clk' e b Hs. split; [|split].
  - by_equations. now rewrite Hs.
  - intros He. by_equations. now rewrite He, Hs.
  - assert (Hshape : exists fs,
              after (recordFailure e) clk b
              = mkCircuitBreaker OPEN fs (successes b) (openedAt b) (config b)).
    { destruct b as [s fs n t cfg]. cbn in Hs. subst s. by_equations.
      cbn [state failures successes openedAt config].
      destruct (shouldCountError _ _); eexists; reflexivity. }
    destruct Hshape as [fs Hfs]. rewrite Hfs. by_equations.
    cbn [state failures successes openedAt config Stats.timeUntilHalfOpen].
    rewrite Hs. repeat split; try reflexivity.
    now destruct (_ >=? _).
Qed.

Lemma open_ignores_reported_outcomes_witness :
  state tripped = OPEN /\
  timeUntilHalfOpen (at_ 20000) tripped = 11000 /\
  timeUntilHalfOpen (at_ 20000)
    (after (recordFailure (mkError "No session record")) (at_ 15000) tripped) = 11000.
Proof.
  split; [reflexivity|]. split; [reflexivity|].
  destruct (open_ignores_reported_outcomes (at_ 15000) (at_ 20000)
              (mkError "No session record") tripped eq_refl)
    as (_ & _ & _ & _ & _ & H & _).
  rewrite H. reflexivity.
Defined.

(** ** The failure records *)

(** X8.  No method invents or alters a failure record: every record held
    after a call was held before it, except the one [recordFailure(e)]
    stamps with its first clock reading and [e]'s message; so the sequence
    grows by at most that one record per call. *)
Theorem records_come_from_recordFailure :
  forall (m : Method) (clk : Clock) (b : CircuitBreaker),
    (forall f : FailureRecord,
       In f (failures (invoke m clk b)) ->
       In f (failures b) \/
       exists e, m = RecordFailure e /\ f = mkFailure (clk 0%nat) (message e)) /\
    length_ (failures (invoke m clk b))
      <= length_ (failures b) + match m with RecordFailure _ => 1 | _ => 0 end.
Proof.
  intros m clk b.
  assert (Hin : forall now f, In f (pruned now b) -> In f (failures b))
    by (intros now f H; apply In_pruned in H; tauto).
  assert (Hsnoc : forall now e f,
            In f (filter (fun f => timestamp f >? now)
                    (failures b ++ [mkFailure (clk 0%nat) (message e)])) ->
            In f (failures b) \/
            exists e', RecordFailure e = RecordFailure e' /\
                       f = mkFailure (clk 0%nat) (message e')).
  { intros now e f H. apply filter_In in H. destruct H as [H _].
    apply in_app_or in H. destruct H as [H|[H|[]]]; [auto|]. right. eauto. }
  assert (Hlen : forall now e,
            length_ (filter (fun f => timestamp f >? now)
                       (failures b ++ [mkFailure (clk 0%nat) (message e)]))
            <= length_ (failures b) + 1).
  { intros now e. unfold length_.
    pose proof (filter_length_le (fun f => timestamp f >? now)
                  (failures b ++ [mkFailure (clk 0%nat) (message e)])) as H.
    rewrite length_app in H. cbn [List.length] in H. lia. }
  pose proof (length_pruned_le (clk 0%nat) b) as Hprune.
  assert (Hnil : length_ [] = 0) by reflexivity.
  assert (Hpos : 0 <= length_ (failures b)) by (unfold length_; lia).
  split.
  - intros f. destruct m; branches; unfold pruned; cbn [failures config];
      intros H; eauto; try contradiction.
    all: try (apply in_app_or in H; destruct H as [H|[H|[]]]; [auto|]; right; eauto).
  - destruct m; branches; unfold pruned in *; cbn [failures config]; rewrite ?Hnil;
      try lia; try apply Hlen.
    all: unfold length_; rewrite length_app; cbn [List.length]; lia.
Qed.

(** ** Closing after enough successful probes *)

Lemma recordSuccesses_below_threshold clks : forall b,
  state b = HALF_OPEN ->
  successes b + Z.of_nat (List.length clks) < successThreshold (config b) ->
  recordSuccesses clks b
  = mkCircuitBreaker HALF_OPEN (failures b)
      (successes b + Z.of_nat (List.length clks)) (openedAt b) (config b).
Proof.
  induction clks as [|clk rest IH]; intros b Hs Hlt; cbn [recordSuccesses List.length].
  - destruct b; cbn in *. subst. f_equal. lia.
  - cbn [List.length] in Hlt.
    assert (Hstep : after recordSuccess clk b
                    = mkCircuitBreaker HALF_OPEN (failures b) (successes b + 1)
                        (openedAt b) (config b)).
    { by_equations. rewrite Hs, Zgeb_lt by lia. reflexivity. }
    rewrite Hstep, IH; cbn [state failures successes openedAt config]; try reflexivity;
      try lia.
    f_equal. lia.
Qed.

(** X9.  In HALF_OPEN the successes add up: as long as the count stays
    below [successThreshold] the breaker stays HALF_OPEN with its failure
    records and [openedAt] untouched, and the success that brings the count to
    [successThreshold] leaves exactly the object [reset()] would leave. *)
Theorem enough_successes_reset_the_breaker :
  forall (clks : list Clock) (clk clk' : Clock) (b : CircuitBreaker),
    state b = HALF_OPEN ->
    successes b + Z.of_nat (List.length clks) = successThreshold (config b) - 1 ->
    state (recordSuccesses clks b) = HALF_OPEN /\
    successes (recordSuccesses clks b) = successThreshold (config b) - 1 /\
    failures (recordSuccesses clks b) = failures b /\
    openedAt (recordSuccesses clks b) = openedAt b /\
    after recordSuccess clk (recordSuccesses clks b) = after reset clk' b.
Proof.
  intros clks clk clk' b Hs Hlen.
  rewrite recordSuccesses_below_threshold by (assumption || lia).
  cbn [state failures successes openedAt config].
  repeat split; try lia.
  by_equations. cbn [state failures successes openedAt config].
  rewrite Zgeb_ge by lia. reflexivity.
Qed.

Lemma enough_successes_reset_the_breaker_witness :
  state probing = HALF_OPEN /\
  successes probing + Z.of_nat (List.length [at_ 31005]) = successThreshold (config probing) - 1 /\
  after recordSuccess (at_ 31020) (recordSuccesses [at_ 31005] probing)
    = after reset (at_ 0) probing.
Proof.
  split; [reflexivity|]. split; [reflexivity|].
  exact (proj2 (proj2 (proj2 (proj2
           (enough_successes_reset_the_breaker [at_ 31005] (at_ 31020) (at_ 0) probing
              eq_refl eq_refl))))).
Defined.

(** ** What reaches the logger *)




(** ** The PreKey error filter *)

Lemma prefix_append (p s : string) :
  prefix p s = true <-> exists q, s = (p ++ q)%string.
Proof.
  revert s. induction p as [|a p IH]; intros s.
  - split; [intros _; exists s; reflexivity | intros _; now destruct s].
  - destruct s as [|b s]; cbn;
      [split; [discriminate | intros [q Hq]; discriminate Hq]|].
    destruct (ascii_dec a b) as [->|Hne].
    + rewrite IH. split; intros [q Hq]; exists q; congruence.
    + split; [discriminate | intros [q Hq]; congruence].
Qed.

(** [includes] is substring containment. *)
Lemma includes_substring (s sub : string) :
  includes s sub = true <-> exists pre post, s = (pre ++ sub ++ post)%string.
Proof.
  induction s as [|c s IH]; cbn [includes]; rewrite orb_true_iff, prefix_append.
  - split.
    + intros [[q Hq]|H]; [|discriminate]. exists EmptyString, q. exact Hq.
    + intros [pre [post H]]. left. destruct pre; [|discriminate]. exists post. exact H.
  - rewrite IH. split.
    + intros [[q Hq]|[pre [post H]]].
      * exists EmptyString, q. exact Hq.
      * exists (String c pre), post. cbn. now rewrite H.
    + intros [pre [post H]]. destruct pre as [|c' pre]; cbn in H.
      * left. exists post. exact H.
      * right. exists pre, post. congruence.
Qed.

Lemma lower_lower (c : ascii) : lower (lower c) = lower c.
Proof. destruct c as [[] [] [] [] [] [] [] []]; reflexivity. Qed.

Lemma toLowerCase_idempotent (s : string) : toLowerCase (toLowerCase s) = toLowerCase s.
Proof. induction s as [|c s IH]; cbn; [reflexivity|]. now rewrite lower_lower, IH. Qed.

(** X11.  For an error whose message is ASCII text, the breaker
    [createPreKeyCircuitBreaker] builds counts it exactly when the message,
    lower-cased, contains one of the six keywords as a substring; so the
    letter case of the message does not matter. *)
Theorem preKey_filter_is_keyword_search :
  forall e : Error,
    isASCII (message e) = true ->
    (shouldCountError (config createPreKeyCircuitBreaker) e = true <->
     exists kw pre post : string,
       In kw preKeyKeywords /\ toLowerCase (message e) = (pre ++ kw ++ post)%string) /\
    shouldCountError (config createPreKeyCircuitBreaker) (mkError (toLowerCase (message e)))
      = shouldCountError (config createPreKeyCircuitBreaker) e.
Proof.
  intros e _. split.
  - change (shouldCountError (config createPreKeyCircuitBreaker) e)
      with (includes (toLowerCase (message e)) "prekey" ||
            includes (toLowerCase (message e)) "pre-key" ||
            includes (toLowerCase (message e)) "key used already" ||
            includes (toLowerCase (message e)) "never filled" ||
            includes (toLowerCase (message e)) "session" ||
            includes (toLowerCase (message e)) "decrypt").
    rewrite !orb_true_iff, !includes_substring. unfold preKeyKeywords. split.
    + intros [[[[[H|H]|H]|H]|H]|H]; destruct H as [pre [post H]];
        eexists; exists pre, post; (split; [|exact H]); cbn; auto 10.
    + intros [kw [pre [post [Hin H]]]]. cbn in Hin.
      destruct Hin as [<-|[<-|[<-|[<-|[<-|[<-|[]]]]]]]; eauto 10.
  - cbn [createPreKeyCircuitBreaker constructor config shouldCountError preKeyConfig
         CircuitBreakerConfig.shouldCountError message].
    now rewrite toLowerCase_idempotent.
Qed.

(** * Properties of the logger utility *)

Lemma enabled_iff (env : BaileysLogger.Env) :
  BaileysLogger.isBaileysLogEnabled env = true <-> env "BAILEYS_LOG" = Some "true".
Proof.
  unfold BaileysLogger.isBaileysLogEnabled. destruct (env "BAILEYS_LOG") as [v|].
  - rewrite String.eqb_eq. split; congruence.
  - split; discriminate.
Qed.

Lemma not_enabled (env : BaileysLogger.Env) :
  env "BAILEYS_LOG" <> Some "true" -> BaileysLogger.isBaileysLogEnabled env = false.
Proof.
  intros H. destruct (BaileysLogger.isBaileysLogEnabled env) eqn:E; [|reflexivity].
  apply enabled_iff in E. contradiction.
Qed.

(** X12.  Unless [BAILEYS_LOG] is set to exactly [true] (unset, or any other
    value, a different letter case included) none of the ten logging
    functions prints anything. *)
Theorem logger_is_silent_unless_enabled :
  forall (any number : Type) (showNumber : number -> string)
         (env : BaileysLogger.Env) (r : @BaileysLogger.LogRequest any number),
    env "BAILEYS_LOG" <> Some "true" ->
    BaileysLogger.console showNumber env r = [].
Proof.
  intros any number showNumber env r H. apply not_enabled in H.
  destruct r; cbn [BaileysLogger.console];
    unfold BaileysLogger.baileysLog, BaileysLogger.logConnection,
      BaileysLogger.logDisconnect, BaileysLogger.logQRGenerated, BaileysLogger.logAuth,
      BaileysLogger.logMessage, BaileysLogger.logPreKeys, BaileysLogger.logSession,
      BaileysLogger.logError, BaileysLogger.logInfo;
    rewrite H; reflexivity.
Qed.

Lemma logger_is_silent_unless_enabled_witness :
  envWith "TRUE" "BAILEYS_LOG" <> Some "true" /\
  BaileysLogger.console showZ (envWith "TRUE")
    (@BaileysLogger.LogPreKeys unit Z BaileysLogger.low (Some 4)) = [].
Proof.
  assert (H : envWith "TRUE" "BAILEYS_LOG" <> Some "true") by by_running.
  split; [exact H|].
  exact (logger_is_silent_unless_enabled unit Z showZ (envWith "TRUE") _ H).
Defined.

(** X13.  With [BAILEYS_LOG] set to [true] each logging function makes
    exactly one [console.log] call; its text starts with [[BAILEYS]], and it
    carries a second argument exactly when the caller gave one to
    [baileysLog] or [logInfo]. *)
Theorem logger_prints_one_tagged_line :
  forall (any number : Type) (showNumber : number -> string)
         (env : BaileysLogger.Env) (r : @BaileysLogger.LogRequest any number),
    env "BAILEYS_LOG" = Some "true" ->
    exists c : @BaileysLogger.ConsoleCall any,
      BaileysLogger.console showNumber env r = [c] /\
      prefix "[BAILEYS]" (BaileysLogger.text c) = true /\
      BaileysLogger.data c = BaileysLogger.givenData r.
Proof.
  intros any number showNumber env r H. apply enabled_iff in H.
  destruct r as [m d|ev s|reason s|s|ev s|ev details|ev n|c f|c e|m d];
    cbn [BaileysLogger.console BaileysLogger.givenData];
    unfold BaileysLogger.baileysLog, BaileysLogger.logConnection,
      BaileysLogger.logDisconnect, BaileysLogger.logQRGenerated, BaileysLogger.logAuth,
      BaileysLogger.logMessage, BaileysLogger.logPreKeys, BaileysLogger.logSession,
      BaileysLogger.logError, BaileysLogger.logInfo;
    rewrite H; cbn [negb];
    try destruct d; try destruct ev;
    eexists; (split; [reflexivity|]); cbn [BaileysLogger.text BaileysLogger.data];
    (split; [|reflexivity]);
    first [reflexivity | apply prefix_append; eexists; reflexivity].
Qed.

Lemma logger_prints_one_tagged_line_witness :
  envWith "true" "BAILEYS_LOG" = Some "true" /\
  BaileysLogger.console showZ (envWith "true")
    (@BaileysLogger.LogPreKeys unit Z BaileysLogger.uploaded (Some 30))
  = [BaileysLogger.mkCall "[BAILEYS] 🔐 PreKeys uploaded: 30 keys" None].
Proof.
  split; [reflexivity|].
  destruct (logger_prints_one_tagged_line unit Z showZ (envWith "true")
              (BaileysLogger.LogPreKeys BaileysLogger.uploaded (Some 30)) eq_refl)
    as [c [Hc _]].
  rewrite Hc. vm_compute in Hc. now injection Hc as <-.
Defined.

Lemma append_associative (a b c : string) :
  ((a ++ b) ++ c = a ++ (b ++ c))%string.
Proof. induction a as [|x a IH]; cbn; [reflexivity | now rewrite IH]. Qed.

(** X14.  Optional arguments.  An empty session name is treated as no
    session name by the four functions that take one, and a non-empty name
    appears in brackets right after the tag; [logSession] without [forced]
    prints what it prints with [forced = false]; [logError] prints the same
    line for a string and for an [Error] carrying that string as message. *)
Theorem logger_optional_arguments :
  forall (any number : Type) (showNumber : number -> string)
         (env : BaileysLogger.Env),
    (forall ev, BaileysLogger.logConnection (any := any) env ev (Some "")
                = BaileysLogger.logConnection env ev None) /\
    (forall reason, BaileysLogger.logDisconnect (any := any) env reason (Some "")
                    = BaileysLogger.logDisconnect env reason None) /\
    BaileysLogger.logQRGenerated (any := any) env (Some "")
      = BaileysLogger.logQRGenerated env None /\
    (forall ev, BaileysLogger.logAuth (any := any) env ev (Some "")
                = BaileysLogger.logAuth env ev None) /\
    (forall (r : @BaileysLogger.LogRequest any number) (name : string)
            (c : @BaileysLogger.ConsoleCall any),
       name <> "" ->
       (exists ev, r = BaileysLogger.LogConnection ev (Some name)) \/
       (exists reason, r = BaileysLogger.LogDisconnect reason (Some name)) \/
       r = BaileysLogger.LogQRGenerated (Some name) \/
       (exists ev, r = BaileysLogger.LogAuth ev (Some name)) ->
       In c (BaileysLogger.console showNumber env r) ->
       prefix ("[BAILEYS] [" ++ name ++ "] ")%string (BaileysLogger.text c) = true) /\
    (forall contact, BaileysLogger.logSession (any := any) env contact None
                     = BaileysLogger.logSession env contact (Some false)) /\
    (forall context s, BaileysLogger.logError (any := any) env context (inr s)
                       = BaileysLogger.logError env context (inl (mkError s))).
Proof.
  intros any number showNumber env. repeat split; try reflexivity.
  intros r name c Hname Hr Hin.
  assert (Htag : forall rest : string,
            prefix ("[BAILEYS] [" ++ name ++ "] ")%string
              ("[BAILEYS]" ++ BaileysLogger.sessionTag (Some name) ++ " " ++ rest)%string
            = true).
  { intros rest. apply prefix_append. exists rest.
    destruct name as [|a name]; [contradiction|].
    cbn. rewrite !append_associative. reflexivity. }
  destruct Hr as [[ev ->]|[[reason ->]|[->|[ev ->]]]]; cbn [BaileysLogger.console] in Hin;
    unfold BaileysLogger.logConnection, BaileysLogger.logDisconnect,
      BaileysLogger.logQRGenerated, BaileysLogger.logAuth in Hin;
    destruct (BaileysLogger.isBaileysLogEnabled env); cbn [negb] in Hin;
    try contradiction; try destruct ev;
    destruct Hin as [<-|[]]; cbn [BaileysLogger.text]; apply (Htag _).
Qed.

Lemma logger_optional_arguments_witness :
  "main" <> "" /\
  BaileysLogger.console showZ (envWith "true")
    (@BaileysLogger.LogAuth unit Z BaileysLogger.saved (Some "main"))
  = [BaileysLogger.mkCall "[BAILEYS] [main] 🔑 Credentials saved" None] /\
  prefix "[BAILEYS] [main] " "[BAILEYS] [main] 🔑 Credentials saved" = true.
Proof.
  assert (N : "main" <> "") by discriminate.
  split; [exact N|]. split; [reflexivity|].
  refine (proj1 (proj2 (proj2 (proj2 (proj2
            (logger_optional_arguments unit Z showZ (envWith "true"))))))
            (BaileysLogger.LogAuth BaileysLogger.saved (Some "main")) "main"
            (BaileysLogger.mkCall "[BAILEYS] [main] 🔑 Credentials saved" None) N _ _).
  - right; right; right. exists BaileysLogger.saved. reflexivity.
  - left. reflexivity.
Defined.

(** * Degenerate configurations *)

(** X15.  With a [failureThreshold] of 0 or less the first counted failure
    opens a CLOSED circuit, whatever the window holds: the pruned count is
    never below the threshold. *)
Theorem nonpositive_threshold_opens_at_once :
  forall (clk : Clock) (e : Error) (b : CircuitBreaker),
    state b = CLOSED ->
    failureThreshold (config b) <= 0 ->
    shouldCountError (config b) e = true ->
    state (after (recordFailure e) clk b) = OPEN /\
    openedAt (after (recordFailure e) clk b) = clk 2%nat.
Proof.
  intros clk e b Hs Hth He. rewrite after_recordFailure_closed by assumption.
  cbn zeta. rewrite Zgeb_ge; [split; reflexivity|].
  unfold length_. lia.
Qed.

Lemma nonpositive_threshold_opens_at_once_witness :
  state (constructor (CircuitBreakerConfig.make 0 60000 30000 2 None)) = CLOSED /\
  failureThreshold (config (constructor (CircuitBreakerConfig.make 0 60000 30000 2 None)))
    <= 0 /\
  state (after (recordFailure (mkError "boom")) (at_ 5)
           (constructor (CircuitBreakerConfig.make 0 60000 30000 2 None))) = OPEN.
Proof.
  assert (T : failureThreshold
                (config (constructor (CircuitBreakerConfig.make 0 60000 30000 2 None))) <= 0)
    by by_running.
  split; [reflexivity|]. split; [exact T|].
  exact (proj1 (nonpositive_threshold_opens_at_once (at_ 5) (mkError "boom")
                  (constructor (CircuitBreakerConfig.make 0 60000 30000 2 None))
                  eq_refl T eq_refl)).
Defined.

Lemma recordFailure_outside_empty_window clk e b :
  state b = CLOSED ->
  failures b = [] ->
  failureWindow (config b) <= 0 ->
  0 < failureThreshold (config b) ->
  clk 0%nat <= clk 1%nat ->
  after (recordFailure e) clk b = b.
Proof.
  intros Hs Hfs Hw Hth Hclk. destruct (shouldCountError (config b) e) eqn:He.
  - rewrite after_recordFailure_closed by assumption. rewrite Hfs. cbn [app filter timestamp].
    assert (Hout : (clk 0%nat >? clk 1%nat - failureWindow (config b)) = false)
      by (rewrite Z.gtb_ltb; apply Z.ltb_ge; lia).
    rewrite Hout. cbn zeta. cbn [with_failures failures]. rewrite Zgeb_lt by exact Hth.
    rewrite <- Hfs. apply with_failures_same.
  - now apply after_recordFailure_filtered.
Qed.

(** X16.  With a [failureWindow] of 0 or less (and a positive threshold) a
    CLOSED breaker without records never opens: each failure it is told of is
    pruned in the same call, provided the clock does not run backwards between
    the call's two readings, and the object stays exactly as it was. *)
Theorem nonpositive_window_never_opens :
  forall (calls : list (Clock * Error)) (b : CircuitBreaker),
    state b = CLOSED ->
    failures b = [] ->
    failureWindow (config b) <= 0 ->
    0 < failureThreshold (config b) ->
    Forall (fun ce : Clock * Error => fst ce 0%nat <= fst ce 1%nat) calls ->
    recordFailures calls b = b.
Proof.
  induction calls as [|[clk e] rest IH]; intros b Hs Hfs Hw Hth Hclk; cbn [recordFailures].
  - reflexivity.
  - inversion Hclk as [|? ? Hhead Htail]; subst. cbn [fst] in Hhead.
    rewrite recordFailure_outside_empty_window by assumption.
    now apply IH.
Qed.

Lemma nonpositive_window_never_opens_witness :
  failureWindow (config (constructor (CircuitBreakerConfig.make 1 0 30000 2 None))) <= 0 /\
  0 < failureThreshold (config (constructor (CircuitBreakerConfig.make 1 0 30000 2 None))) /\
  state (recordFailures [(at_ 10, mkError "a"); (at_ 10, mkError "b"); (at_ 11, mkError "c")]
           (constructor (CircuitBreakerConfig.make 1 0 30000 2 None))) = CLOSED.
Proof.
  assert (W : failureWindow
                (config (constructor (CircuitBreakerConfig.make 1 0 30000 2 None))) <= 0)
    by by_running.
  assert (T : 0 < failureThreshold
                    (config (constructor (CircuitBreakerConfig.make 1 0 30000 2 None))))
    by by_running.
  assert (K : Forall (fun ce : Clock * Error => fst ce 0%nat <= fst ce 1%nat)
                [(at_ 10, mkError "a"); (at_ 10, mkError "b"); (at_ 11, mkError "c")])
    by (repeat constructor; by_running).
  split; [exact W|]. split; [exact T|].
  rewrite (nonpositive_window_never_opens
             [(at_ 10, mkError "a"); (at_ 10, mkError "b"); (at_ 11, mkError "c")]
             (constructor (CircuitBreakerConfig.make 1 0 30000 2 None))
             eq_refl eq_refl W T K).
  reflexivity.
Defined.

(** * Instances of the unconditional properties *)

Lemma canExecute_false_iff_open_witness :
  result canExecute (at_ 2000) tripped = false /\
  state (after canExecute (at_ 2000) tripped) = OPEN.
Proof.
  assert (R : result canExecute (at_ 2000) tripped = false) by reflexivity.
  split; [exact R|].
  exact (proj1 (canExecute_false_iff_open (at_ 2000) tripped) R).
Defined.

Lemma records_come_from_recordFailure_witness :
  In (mkFailure 2000 "stale session")
    (failures (invoke (RecordFailure (mkError "stale session")) (at_ 2000) tripped)) /\
  (In (mkFailure 2000 "stale session") (failures tripped) \/
   exists e, RecordFailure (mkError "stale session") = RecordFailure e /\
             mkFailure 2000 "stale session" = mkFailure (at_ 2000 0%nat) (message e)).
Proof.
  assert (H : In (mkFailure 2000 "stale session")
                (failures (invoke (RecordFailure (mkError "stale session")) (at_ 2000)
                             tripped)))
    by (vm_compute; auto 10).
  split; [exact H|].
  exact (proj1 (records_come_from_recordFailure
                  (RecordFailure (mkError "stale session")) (at_ 2000) tripped) _ H).
Defined.

Lemma preKey_filter_is_keyword_search_witness :
  isASCII (message (mkError "No SESSION found")) = true /\
  shouldCountError (config createPreKeyCircuitBreaker) (mkError "No SESSION found") = true /\
  exists kw pre post : string,
    In kw preKeyKeywords /\
    toLowerCase (message (mkError "No SESSION found")) = (pre ++ kw ++ post)%string.
Proof.
  assert (A : isASCII (message (mkError "No SESSION found")) = true) by reflexivity.
  assert (H : shouldCountError (config createPreKeyCircuitBreaker)
                (mkError "No SESSION found") = true) by reflexivity.
  split; [exact A|]. split; [exact H|].
  exact (proj1 (proj1 (preKey_filter_is_keyword_search (mkError "No SESSION found") A)) H).
Defined.
